(** * sync_pr_to_ado: directives of a pull-request description reconciled
      with an Azure DevOps work item

    A shallow embedding of [sync_pr_to_ado.py]: the directive parser (the
    five regular-expression extractors), the four reconcilers and [main].

    - Python [str] is [string]; a character is a code point below 256
      (Latin-1), which is what [ascii] holds.
    - [re] patterns are values of [regex], run by a backtracking matcher
      with the priorities of Python's engine (leftmost start, alternatives
      and quantifiers tried in order).
    - The remote calls are requests of a program tree [prog]; an
      environment answers them, so that every statement about the calls a
      run issues holds for every remote behaviour. *)

From Stdlib Require Import ZArith Ascii String Lia.
From stdpp Require Import base option list gmap strings pretty.

Local Open Scope string_scope.
Local Open Scope Z_scope.
Local Open Scope list_scope.

(** ** Characters and the [str] methods the script uses *)

Module Py.

Definition code (c : ascii) : N := N_of_ascii c.

(** [str.isspace] on one character, which is also the class [\s] of [re]:
    TAB..CR, FS..US, SPACE, NEL and NBSP are the white space below 256. *)
Definition isspace (c : ascii) : bool :=
  let n := code c in
  ((9 <=? n) && (n <=? 13) || (28 <=? n) && (n <=? 32)
   || (n =? 133) || (n =? 160))%N.

(** The class [\d]: the decimal digits below 256 are [0]..[9]. *)
Definition isdigit (c : ascii) : bool :=
  let n := code c in ((48 <=? n) && (n <=? 57))%N.

(** [str.lower] on one character: A..Z and the upper-case letters of
    Latin-1 (all of 0xC0..0xDE but the multiplication sign) move up by 32. *)
Definition lower_char (c : ascii) : ascii :=
  let n := code c in
  if ((65 <=? n) && (n <=? 90)
      || (192 <=? n) && (n <=? 222) && negb (n =? 215))%N
  then ascii_of_N (n + 32) else c.

Fixpoint lower (s : string) : string :=
  match s with
  | EmptyString => EmptyString
  | String c s' => String (lower_char c) (lower s')
  end.

Fixpoint lstrip (s : string) : string :=
  match s with
  | String c s' => if isspace c then lstrip s' else s
  | EmptyString => EmptyString
  end.

(** [rstrip] keeps a character when it is not white space or when
    something is kept after it. *)
Fixpoint rstrip (s : string) : string :=
  match s with
  | EmptyString => EmptyString
  | String c s' =>
      match rstrip s' with
      | EmptyString => if isspace c then EmptyString else String c EmptyString
      | t => String c t
      end
  end.

Definition strip (s : string) : string := rstrip (lstrip s).

(** [s.split(sep)] for a one-character separator: always at least one
    field. *)
Fixpoint split (sep : ascii) (s : string) : list string :=
  match s with
  | EmptyString => [EmptyString]
  | String c s' =>
      if Ascii.eqb c sep then EmptyString :: split sep s'
      else match split sep s' with
           | f :: fs => String c f :: fs
           | [] => [String c EmptyString]
           end
  end.

(** [s.split(sep, 1)] when [sep] occurs in [s]: the text before the first
    separator, and the text after it. *)
Fixpoint split1 (sep : ascii) (s : string) : string * string :=
  match s with
  | EmptyString => (EmptyString, EmptyString)
  | String c s' =>
      if Ascii.eqb c sep then (EmptyString, s')
      else let '(a, b) := split1 sep s' in (String c a, b)
  end.

(** [c in s] for a character. *)
Fixpoint has_char (c : ascii) (s : string) : bool :=
  match s with
  | EmptyString => false
  | String x s' => Ascii.eqb x c || has_char c s'
  end.

(** [sep.join(l)] *)
Fixpoint join (sep : string) (l : list string) : string :=
  match l with
  | [] => EmptyString
  | [x] => x
  | x :: l' => x +:+ sep +:+ join sep l'
  end.

Fixpoint starts_with (p s : string) : bool :=
  match p, s with
  | EmptyString, _ => true
  | String a p', String b s' => Ascii.eqb a b && starts_with p' s'
  | String _ _, EmptyString => false
  end.

(** [p in s] for strings: [p] starts at some position of [s]. *)
Fixpoint contains (p s : string) : bool :=
  starts_with p s ||
  match s with
  | EmptyString => false
  | String _ s' => contains p s'
  end.

(** Truth value of a [str]: the empty string is false. *)
Definition truthy (s : string) : bool :=
  match s with EmptyString => false | String _ _ => true end.

(** The value of a string of decimal digits. *)
Definition digit_value (c : ascii) : Z := Z.of_N (code c) - 48.

Definition digits_value (s : string) : Z :=
  (fix go (acc : Z) (s : string) : Z :=
     match s with
     | EmptyString => acc
     | String c s' => go (10 * acc + digit_value c) s'
     end) 0 s.

(** CPython refuses to convert a decimal string of more than
    [sys.get_int_max_str_digits()] digits (4300 by default): [int] raises
    [ValueError] there. *)
Definition int_max_str_digits : nat := 4300.

Definition int (s : string) : option Z :=
  if (String.length s <=? int_max_str_digits)%nat
  then Some (digits_value s) else None.

End Py.

(** ** Regular expressions *)

Module Re.

Record flags := Flags { ignorecase : bool; dotall : bool }.

Definition NOFLAGS := Flags false false.
Definition IGNORECASE := Flags true false.
Definition IGNORECASE_DOTALL := Flags true true.

(** The constructs the five patterns of the script are made of. There is
    at most one capturing group in a pattern, group 1. *)
Inductive regex : Type :=
| Eps
| Lit (c : ascii)                      (* a literal character *)
| Space                                (* \s *)
| Digit                                (* \d *)
| Dot                                  (* . *)
| OneOf (cs : list ascii)              (* [...] *)
| Cat (r1 r2 : regex)
| Or (r1 r2 : regex)                   (* r1|r2 *)
| Star (greedy : bool) (r : regex)     (* r* and r*? *)
| Group (r : regex)                    (* (r) *)
| Eol                                  (* $ *)
| Ahead (r : regex).                   (* (?=r) *)

(** [r+] and [r+?] are [r] followed by [r*] and [r*?]; [r?] prefers [r]. *)
Definition Plus (greedy : bool) (r : regex) : regex := Cat r (Star greedy r).
Definition Opt (r : regex) : regex := Or r Eps.

Fixpoint Cats (rs : list regex) : regex :=
  match rs with
  | [] => Eps
  | [r] => r
  | r :: rs' => Cat r (Cats rs')
  end.

Fixpoint Str (s : string) : regex :=
  match s with
  | EmptyString => Eps
  | String c EmptyString => Lit c
  | String c s' => Cat (Lit c) (Str s')
  end.

(** Equality of characters under the flags: with IGNORECASE two
    characters match when their lower-case forms agree. *)
Definition same_char (fl : flags) (a b : ascii) : bool :=
  if ignorecase fl then Ascii.eqb (Py.lower_char a) (Py.lower_char b)
  else Ascii.eqb a b.

Definition newline : ascii := "010"%char.

(** [$] without MULTILINE: at the end of the text, or before a newline
    that ends it. *)
Definition at_end (s : string) : bool :=
  match s with
  | EmptyString => true
  | String c EmptyString => Ascii.eqb c newline
  | _ => false
  end.

(** The text consumed between the suffix [s] and its suffix [s1]. *)
Definition consumed (s s1 : string) : string :=
  substring 0 (String.length s - String.length s1) s.

Local Notation "a 'orelse' b" :=
  (match a with Some x => Some x | None => b end)
  (at level 70, only parsing).

(** The iterations of a star whose body is matched by [body]: at most [n]
    more of them. The greedy star first tries one more iteration, the lazy
    one first tries to go on with [k]. An iteration has to consume
    something, as in Python's engine, so that [String.length s] iterations
    are always enough. *)
Fixpoint star_loop {R : Type}
    (body : string → option string
            → (string → option string → option R) → option R)
    (greedy : bool) (k : string → option string → option R)
    (n : nat) (s : string) (g : option string) : option R :=
  let again (_ : unit) :=
    match n with
    | O => None
    | S n' =>
        body s g
          (λ s1 g1,
             if (String.length s1 <? String.length s)%nat
             then star_loop body greedy k n' s1 g1 else None)
    end in
  if greedy then again () orelse k s g
  else k s g orelse again ().

(** Backtracking matcher in continuation-passing style. [m fl r s g k]
    matches [r] at the start of [s]; [g] is the text of group 1 so far; the
    continuation [k] receives what is left of the text and the group, and
    answers [None] to ask for the next way of matching. *)
Fixpoint m {R : Type} (fl : flags) (r : regex) (s : string)
    (g : option string) (k : string → option string → option R)
    {struct r} : option R :=
  let one (ok : ascii → bool) :=
    match s with
    | String c s' => if ok c then k s' g else None
    | EmptyString => None
    end in
  match r with
  | Eps => k s g
  | Lit c => one (same_char fl c)
  | Space => one Py.isspace
  | Digit => one Py.isdigit
  | Dot => one (λ c, dotall fl || negb (Ascii.eqb c newline))
  | OneOf cs => one (λ c, existsb (same_char fl c) cs)
  | Cat r1 r2 => m fl r1 s g (λ s1 g1, m fl r2 s1 g1 k)
  | Or r1 r2 => m fl r1 s g k orelse m fl r2 s g k
  | Star greedy r1 => star_loop (m fl r1) greedy k (String.length s) s g
  | Group r1 => m fl r1 s g (λ s1 _, k s1 (Some (consumed s s1)))
  | Eol => if at_end s then k s g else None
  | Ahead r1 =>
      match m fl r1 s g (λ _ _, Some tt) with
      | Some _ => k s g
      | None => None
      end
  end.

(** One match: the text of group 1 and the text after the match. *)
Record found := Found { group1 : option string; rest : string }.

Definition match_at (fl : flags) (r : regex) (s : string) : option found :=
  m fl r s None (λ s1 g, Some (Found g s1)).

(** [re.search]: the first position where the pattern matches. *)
Fixpoint search (fl : flags) (r : regex) (s : string) : option found :=
  match_at fl r s orelse
  match s with
  | String _ s' => search fl r s'
  | EmptyString => None
  end.

(** [re.findall] for a pattern with one group that never matches the empty
    text: the group of every match, left to right, a match starting where
    the one before it ended at the earliest. [skip] counts the characters of
    the last match still to pass. *)
Fixpoint findall_from (fl : flags) (r : regex) (skip : nat) (s : string)
    : list string :=
  match skip, s with
  | S n, String _ s' => findall_from fl r n s'
  | S _, EmptyString => []
  | O, _ =>
      match match_at fl r s, s with
      | Some f, String _ s' =>
          default EmptyString (group1 f)
            :: findall_from fl r
                 (String.length s - String.length (rest f) - 1) s'
      | Some f, EmptyString => [default EmptyString (group1 f)]
      | None, String _ s' => findall_from fl r O s'
      | None, EmptyString => []
      end
  end.

Definition findall (fl : flags) (r : regex) (s : string) : list string :=
  findall_from fl r O s.

End Re.

(** ** The directive parser *)

Import Re.

Definition ws : regex := Star true Space.

(** [r"ADO\s*Card\s*:\s*(\d+)"] *)
Definition card_pattern : regex :=
  Cats [Str "ADO"; ws; Str "Card"; ws; Lit ":"; ws; Group (Plus true Digit)].

(** [r"ADO\s*Tags\s*:\s*(.+?)(?:\n|$)"] *)
Definition tags_pattern : regex :=
  Cats [Str "ADO"; ws; Str "Tags"; ws; Lit ":"; ws;
        Group (Plus false Dot); Or (Lit newline) Eol].

(** [(?:\s*[-*]\s*.+\n?)+], the bullet lines of a block *)
Definition bullet_lines : regex :=
  Plus true
    (Cats [ws; OneOf ["-"; "*"]%char; ws; Plus true Dot; Opt (Lit newline)]).

(** [r"ADO\s*Children\s*:\s*\n((?:\s*[-*]\s*.+\n?)+)"] *)
Definition children_pattern : regex :=
  Cats [Str "ADO"; ws; Str "Children"; ws; Lit ":"; ws; Lit newline;
        Group bullet_lines].

(** [r"ADO\s*Comment\s*:\s*(.+?)(?:\n(?=ADO\s)|$)"] *)
Definition comment_pattern : regex :=
  Cats [Str "ADO"; ws; Str "Comment"; ws; Lit ":"; ws;
        Group (Plus false Dot);
        Or (Cat (Lit newline) (Ahead (Cat (Str "ADO") Space))) Eol].

(** [r"ADO\s*Links\s*:\s*\n((?:\s*[-*]\s*.+\n?)+)"] *)
Definition links_pattern : regex :=
  Cats [Str "ADO"; ws; Str "Links"; ws; Lit ":"; ws; Lit newline;
        Group bullet_lines].

(** [r"[-*]\s*(.+)"], one bullet *)
Definition bullet_pattern : regex :=
  Cats [OneOf ["-"; "*"]%char; ws; Group (Plus true Dot)].

(** The text of group 1 of a match; the group takes part in every match
    of the patterns above. *)
Definition group (f : found) : string := default EmptyString (group1 f).

(** What a call that may raise gives: a value, or the exception. *)
Inductive raises (A : Type) : Type :=
| Value (a : A)
| Raised (exc : string).
Arguments Value {A} a.
Arguments Raised {A} exc.

Definition extract_ado_card_number (pr_description : string)
    : raises (option Z) :=
  match search IGNORECASE card_pattern pr_description with
  | Some f =>
      match Py.int (group f) with
      | Some n => Value (Some n)
      | None => Raised "ValueError"
      end
  | None => Value None
  end.

Definition extract_tags (pr_description : string) : list string :=
  match search IGNORECASE tags_pattern pr_description with
  | Some f =>
      let tags_str := group f in
      Py.strip <$>
        filter (λ tag, Py.truthy (Py.strip tag) = true)
               (Py.split "," tags_str)
  | None => []
  end.

Definition extract_children (pr_description : string) : list string :=
  match search IGNORECASE children_pattern pr_description with
  | Some f =>
      let items_block := group f in
      let items := findall NOFLAGS bullet_pattern items_block in
      Py.strip <$> filter (λ item, Py.truthy (Py.strip item) = true) items
  | None => []
  end.

Definition extract_comment (pr_description : string) : option string :=
  match search IGNORECASE_DOTALL comment_pattern pr_description with
  | Some f => Some (Py.strip (group f))
  | None => None
  end.

(** One bullet of the links block: [None] when the line or its URL is
    empty, else the pair [(url, name)]. *)
Definition link_of_line (line : string) : option (string * string) :=
  let line := Py.strip line in
  if negb (Py.truthy line) then None
  else
    let '(url, name) :=
      if Py.has_char "|" line
      then let '(a, b) := Py.split1 "|" line in (Py.strip a, Py.strip b)
      else (line, line) in
    if Py.truthy url then Some (url, name) else None.

Definition extract_links (pr_description : string)
    : list (string * string) :=
  match search IGNORECASE links_pattern pr_description with
  | None => []
  | Some f =>
      let links_block := group f in
      omap link_of_line (findall NOFLAGS bullet_pattern links_block)
  end.

(** ** Values exchanged with the remote services *)

(** A relation of a work item: [rel.get("rel")], [rel.get("url")] and the
    [comment] attribute. *)
Record relation := Relation {
  rel_kind : option string;
  rel_url : option string;
  rel_comment : option string
}.

(** A work item as the REST API returns it: [item["id"]],
    [item.get("fields", {})] and [item.get("relations", []) or []]. *)
Record work_item := WorkItem {
  wi_id : Z;
  wi_fields : gmap string string;
  wi_relations : list relation
}.

(** A row of the [workItemRelations] of a WIQL answer: [rel.get("target")]
    holds the id of the target, when there is one. *)
Record wiql_row := WiqlRow { row_target : option Z }.

Record comment := Comment {
  c_id : Z;                             (* comment["id"] *)
  c_text : option string                (* comment.get("text") *)
}.

(** The value of an operation of a JSON patch document. *)
Inductive json : Type :=
| JStr (s : string)
| JRel (rel url : string) (attributes_comment : option string).

Record patch_op := PatchOp {
  op : string;
  path : string;
  value : option json
}.

(** [.ado/metadata.json] *)
Record metadata := Metadata {
  organization : option string;
  project : option string;
  pat_env_var : option string
}.

(** [AdoClient]: what [__init__] stores. *)
Record AdoClient := Client {
  client_organization : string;
  client_project : string;
  client_pat : string
}.

Definition base_url (client : AdoClient) : string :=
  "https://dev.azure.com/" +:+ client_organization client +:+ "/"
    +:+ client_project client +:+ "/_apis".

(** ** Programs over the outside world

    What the script asks of the outside world, one request per call of a
    method of [AdoClient], per [httpx] call made outside of it, per read
    of the environment, and per line written to the standard error by
    [main] and the functions it calls. The lines that the methods of
    [AdoClient] write themselves, the progress lines on the standard
    output and the debug lines are not part of the model. *)
Inductive request : Type :=
| GithubGetPull (repo : option string) (pr_number : option Z)
                (github_token : option string)
| ReadMetadata
| GetEnv (name : string)
| GetWorkItem (client : AdoClient) (work_item_id : Z)
| UpdateWorkItem (client : AdoClient) (work_item_id : Z)
                 (patch_document : list patch_op)
| CreateWorkItem (client : AdoClient) (work_item_type : string)
                 (patch_document : list patch_op)
| PostWiqlChildren (client : AdoClient) (parent_id : Z)
| GetWorkItems (client : AdoClient) (ids : list Z)
| GetComments (client : AdoClient) (work_item_id : Z)
| AddComment (client : AdoClient) (work_item_id : Z) (text : string)
| UpdateComment (client : AdoClient) (work_item_id : Z) (comment_id : Z)
                (text : string)
| Stderr (line : string).

(** What each request answers: the value the Python call returns. A pair
    [(status, x)] is an HTTP status and the part of the JSON body that is
    read when the status is 200. *)
Definition resp (q : request) : Type :=
  match q with
  | GithubGetPull _ _ _ => Z * option string
  | ReadMetadata => option metadata
  | GetEnv _ => option string
  | GetWorkItem _ _ => option work_item
  | UpdateWorkItem _ _ _ => bool
  | CreateWorkItem _ _ _ => option work_item
  | PostWiqlChildren _ _ => Z * list wiql_row
  | GetWorkItems _ _ => Z * list work_item
  | GetComments _ _ => list comment
  | AddComment _ _ _ => option comment
  | UpdateComment _ _ _ _ => bool
  | Stderr _ => unit
  end.

Inductive prog (A : Type) : Type :=
| Ret (a : A)
| Exit (code : Z)                       (* sys.exit(code) *)
| Raise (exc : string)                  (* an exception nobody catches *)
| Do (q : request) (k : resp q → prog A).
Arguments Ret {A} a.
Arguments Exit {A} code.
Arguments Raise {A} exc.
Arguments Do {A} q k.

Fixpoint bind {A B : Type} (p : prog A) (f : A → prog B) : prog B :=
  match p with
  | Ret a => f a
  | Exit c => Exit c
  | Raise e => Raise e
  | Do q k => Do q (λ r, bind (k r) f)
  end.

#[global] Instance prog_ret : MRet prog := @Ret.
#[global] Instance prog_bind : MBind prog := λ A B f p, bind p f.

Definition call (q : request) : prog (resp q) := Do q Ret.
Definition eprint (line : string) : prog unit := call (Stderr line).

(** [for x in l: body x] *)
Fixpoint for_each {A : Type} (l : list A) (body : A → prog unit)
    : prog unit :=
  match l with
  | [] => Ret tt
  | x :: l' => body x ;; for_each l' body
  end.

(** *** Running a program

    An environment with states of type [S] answers each request and moves
    to its next state. A run gives how the program ended, the last state
    and the requests in the order they were made, with their answers. *)
Definition handler (S : Type) : Type := ∀ q : request, S → resp q * S.

Record event := Ev { ev_req : request; ev_resp : resp ev_req }.

Inductive outcome (A : Type) : Type :=
| Returned (a : A)
| Exited (code : Z)
| Crashed (exc : string).
Arguments Returned {A} a.
Arguments Exited {A} code.
Arguments Crashed {A} exc.

Fixpoint exec {S A : Type} (h : handler S) (p : prog A) (s : S)
    : outcome A * S * list event :=
  match p with
  | Ret a => (Returned a, s, [])
  | Exit c => (Exited c, s, [])
  | Raise e => (Crashed e, s, [])
  | Do q k =>
      let '(r, s1) := h q s in
      let '(o, s2, t) := exec h (k r) s1 in
      (o, s2, Ev q r :: t)
  end.

(** The exit status of the process. *)
Definition exit_code {A : Type} (o : outcome A) : Z :=
  match o with
  | Returned _ => 0
  | Exited c => c
  | Crashed _ => 1
  end.

Definition requests (t : list event) : list request := ev_req <$> t.

(** The requests that change the work item or create something. *)
Definition is_mutation (q : request) : bool :=
  match q with
  | UpdateWorkItem _ _ _ | CreateWorkItem _ _ _
  | AddComment _ _ _ | UpdateComment _ _ _ _ => true
  | _ => false
  end.

Definition mutations (t : list event) : list request :=
  filter (λ q, is_mutation q = true) (requests t).

(** The requests sent to Azure DevOps, reads and writes. *)
Definition is_ado (q : request) : bool :=
  match q with
  | GetWorkItem _ _ | UpdateWorkItem _ _ _ | CreateWorkItem _ _ _
  | PostWiqlChildren _ _ | GetWorkItems _ _ | GetComments _ _
  | AddComment _ _ _ | UpdateComment _ _ _ _ => true
  | _ => false
  end.

(** ** The reconcilers *)

Definition nl : string := String newline EmptyString.

Definition get_github_pr_description (repo : option string)
    (pr_number : option Z) (github_token : option string)
    : prog (option string) :=
  '(status_code, body) ← call (GithubGetPull repo pr_number github_token);
  if decide (status_code ≠ 200) then
    eprint ("Error fetching PR from GitHub: " +:+ pretty status_code);;
    Exit 1
  else Ret body.

(** The patch document of the description and the tags. *)
Definition description_patch_document (description : string)
    (tags : list string) : list patch_op :=
  let patch_document :=
    [PatchOp "replace" "/fields/System.Description" (Some (JStr description))]
  in
  match tags with
  | _ :: _ =>
      let tags_value := Py.join "; " tags in
      patch_document
        ++ [PatchOp "replace" "/fields/System.Tags" (Some (JStr tags_value))]
  | [] =>
      patch_document ++ [PatchOp "remove" "/fields/System.Tags" None]
  end.

Definition update_work_item_description_and_tags (client : AdoClient)
    (work_item_id : Z) (description : string) (tags : list string)
    : prog bool :=
  call (UpdateWorkItem client work_item_id
          (description_patch_document description tags)).

(** The title of an item: [item.get("fields", {}).get("System.Title", "")] *)
Definition title_of (item : work_item) : string :=
  default EmptyString (wi_fields item !! "System.Title").

Definition get_existing_child_titles (client : AdoClient) (parent_id : Z)
    : prog (gmap string Z) :=
  '(status_code, relations) ← call (PostWiqlChildren client parent_id);
  if decide (status_code ≠ 200) then Ret ∅
  else
    let child_ids :=
      omap (λ rel, match row_target rel with
                   | Some id => if decide (id ≠ parent_id) then Some id
                                else None
                   | None => None
                   end) relations in
    match child_ids with
    | [] => Ret ∅
    | _ :: _ =>
        '(status_code, value) ← call (GetWorkItems client child_ids);
        if decide (status_code ≠ 200) then Ret ∅
        else
          Ret (foldl (λ (children : gmap string Z) item,
                        <[Py.lower (title_of item) := wi_id item]> children)
                     ∅ value)
    end.

(** The patch document of a new child task. *)
Definition child_patch_document (client : AdoClient) (parent_id : Z)
    (area_path iteration_path title : string) : list patch_op :=
  let patch_document :=
    [PatchOp "add" "/fields/System.Title" (Some (JStr title));
     PatchOp "add" "/relations/-"
       (Some (JRel "System.LinkTypes.Hierarchy-Reverse"
                (base_url client +:+ "/wit/workitems/" +:+ pretty parent_id)
                None))] in
  let patch_document :=
    if Py.truthy area_path
    then patch_document
           ++ [PatchOp "add" "/fields/System.AreaPath" (Some (JStr area_path))]
    else patch_document in
  if Py.truthy iteration_path
  then patch_document
         ++ [PatchOp "add" "/fields/System.IterationPath"
               (Some (JStr iteration_path))]
  else patch_document.

Definition sync_child_items (client : AdoClient) (parent_id : Z)
    (child_titles : list string) : prog unit :=
  match child_titles with
  | [] => Ret tt
  | _ :: _ =>
      existing ← get_existing_child_titles client parent_id;
      parent ← call (GetWorkItem client parent_id);
      match parent with
      | None =>
          eprint ("Error: Could not fetch parent work item #"
                    +:+ pretty parent_id)
      | Some parent =>
          let area_path :=
            default EmptyString (wi_fields parent !! "System.AreaPath") in
          let iteration_path :=
            default EmptyString (wi_fields parent !! "System.IterationPath") in
          for_each child_titles (λ title,
            if decide (is_Some (existing !! Py.lower title)) then Ret tt
            else
              result ← call (CreateWorkItem client "Task"
                               (child_patch_document client parent_id
                                  area_path iteration_path title));
              match result with
              | Some _ => Ret tt
              | None =>
                  eprint ("  Failed to create child: '" +:+ title +:+ "'")
              end)
      end
  end.

Definition COMMENT_MARKER : string := "<!-- ado-sync-comment -->".

Definition sync_comment (client : AdoClient) (work_item_id : Z)
    (comment_text : string) : prog unit :=
  if negb (Py.truthy comment_text) then Ret tt
  else
    let full_comment := COMMENT_MARKER +:+ nl +:+ comment_text in
    comments ← call (GetComments client work_item_id);
    (fix scan (comments : list comment) : prog unit :=
       match comments with
       | comment :: comments' =>
           if Py.contains COMMENT_MARKER
                (default EmptyString (c_text comment))
           then
             call (UpdateComment client work_item_id (c_id comment)
                     full_comment);;
             Ret tt
           else scan comments'
       | [] =>
           call (AddComment client work_item_id full_comment);;
           Ret tt
       end) comments.

Definition get_existing_hyperlinks (client : AdoClient) (work_item_id : Z)
    : prog (gset string) :=
  work_item ← call (GetWorkItem client work_item_id);
  match work_item with
  | None => Ret ∅
  | Some work_item =>
      Ret (foldl (λ (urls : gset string) rel,
                    if decide (rel_kind rel = Some "Hyperlink")
                    then urls ∪ {[default EmptyString (rel_url rel)]}
                    else urls)
                 ∅ (wi_relations work_item))
  end.

Definition hyperlink_patch_document (url name : string) : list patch_op :=
  [PatchOp "add" "/relations/-" (Some (JRel "Hyperlink" url (Some name)))].

Definition sync_hyperlinks (client : AdoClient) (work_item_id : Z)
    (links : list (string * string)) : prog unit :=
  match links with
  | [] => Ret tt
  | _ :: _ =>
      existing ← get_existing_hyperlinks client work_item_id;
      for_each links (λ '(url, name),
        if decide (url ∈ existing) then Ret tt
        else
          ok ← call (UpdateWorkItem client work_item_id
                       (hyperlink_patch_document url name));
          if ok : bool then Ret tt
          else eprint ("  Failed to add link: '" +:+ name +:+ "'"))
  end.

(** ** [main] *)

(** The parsed command line. [argparse] makes sure that exactly one of
    [--pr-description] and [--pr-number] is given. *)
Record arguments := Args {
  arg_pr_description : option string;
  arg_pr_number : option Z;
  arg_repo : option string;
  arg_github_token : option string;
  arg_debug : bool
}.

(** Truth value of an optional [str] and of an optional [int]. *)
Definition truthy_str (o : option string) : bool :=
  match o with Some s => Py.truthy s | None => false end.

Definition truthy_int (o : option Z) : bool :=
  match o with Some n => negb (n =? 0) | None => false end.

(** The path of the configuration file, from the directory of the script. *)
Definition metadata_path : string := ".ado/metadata.json".

Definition load_ado_metadata : prog metadata :=
  found ← call ReadMetadata;
  match found with
  | None =>
      eprint ("Error: ADO metadata file not found at " +:+ metadata_path);;
      Exit 1
  | Some metadata => Ret metadata
  end.

Definition get_ado_pat (metadata : metadata) : prog string :=
  let env_var := default "ADO_PAT" (pat_env_var metadata) in
  pat ← call (GetEnv env_var);
  match pat with
  | Some (String _ _ as pat) => Ret pat
  | _ =>
      eprint ("Error: Environment variable " +:+ env_var +:+ " is not set");;
      Exit 1
  end.

(** The five extractors [main] calls. *)
Record parser := Parser {
  p_card : string → raises (option Z);
  p_tags : string → list string;
  p_children : string → list string;
  p_comment : string → option string;
  p_links : string → list (string * string)
}.

Definition directive_parser : parser :=
  Parser extract_ado_card_number extract_tags extract_children
         extract_comment extract_links.

Definition lift {A : Type} (x : raises A) : prog A :=
  match x with
  | Value a => Ret a
  | Raised exc => Raise exc
  end.

(** The first block of [main]: the check of the arguments and the PR
    description, given on the command line or fetched from GitHub. *)
Definition get_pr_description (args : arguments) : prog (option string) :=
  (if truthy_int (arg_pr_number args) && negb (truthy_str (arg_repo args))
   then eprint "error: --repo is required when using --pr-number";; Exit 2
   else Ret tt);;
  if truthy_str (arg_pr_description args)
  then Ret (arg_pr_description args)
  else
    github_token ←
      (if truthy_str (arg_github_token args)
       then Ret (arg_github_token args)
       else call (GetEnv "GITHUB_TOKEN"));
    get_github_pr_description (arg_repo args) (arg_pr_number args)
      github_token.

(** The last block of [main], from the update of the description and the
    tags to the three reconcilers. *)
Definition sync_work_item (client : AdoClient) (ado_card_number : Z)
    (pr_description : string) (tags children : list string)
    (comment : option string) (links : list (string * string))
    : prog unit :=
  ok ← update_work_item_description_and_tags
         client ado_card_number pr_description tags;
  if ok : bool then
    match children with
    | _ :: _ => sync_child_items client ado_card_number children
    | [] => Ret tt
    end;;
    match comment with
    | Some (String _ _ as comment) =>
        sync_comment client ado_card_number comment
    | _ => Ret tt
    end;;
    match links with
    | _ :: _ => sync_hyperlinks client ado_card_number links
    | [] => Ret tt
    end
  else Exit 1.

(** [main], over the extractors it calls. *)
Definition main_with (P : parser) (args : arguments) : prog unit :=
  pr_description ← get_pr_description args;
  match pr_description with
  | None | Some EmptyString =>
      eprint "Error: PR description is empty";;
      Exit 1
  | Some pr_description =>
      ado_card_number ← lift (p_card P pr_description);
      match ado_card_number with
      | None | Some 0 =>
          eprint "No ADO Card number found in PR description";;
          eprint "Expected format: 'ADO Card: <number>'";;
          Exit 1
      | Some ado_card_number =>
          let tags := p_tags P pr_description in
          let children := p_children P pr_description in
          let comment := p_comment P pr_description in
          let links := p_links P pr_description in
          metadata ← load_ado_metadata;
          match organization metadata, project metadata with
          | Some (String _ _ as organization), Some (String _ _ as project) =>
              pat ← get_ado_pat metadata;
              let client := Client organization project pat in
              sync_work_item client ado_card_number pr_description
                tags children comment links
          | _, _ =>
              eprint "Error: 'organization' and 'project' are required in metadata.json";;
              Exit 1
          end
      end
  end.

Definition main : arguments → prog unit := main_with directive_parser.

(** What [parser.parse_args()] makes of the command line, at the head of
    [main]: the arguments, or the end of the process, with status 0 after
    the help that [-h] asks for, with status 2 after the message of a
    usage error on the standard error. *)
Inductive command_line :=
| Parsed (args : arguments)
| Help
| UsageError (message : string).

(** [main] from the command line, over the extractors it calls. *)
Definition main_from (P : parser) (cl : command_line) : prog unit :=
  match cl with
  | Parsed args => main_with P args
  | Help => Exit 0
  | UsageError message => eprint message;; Exit 2
  end.

(** ** A remote that works

    An environment in which every call succeeds and takes effect as the
    REST interface documents it: the work items of one project with their
    fields, relations and comments. It is the remote of the end-to-end
    scenarios; the statements on the calls a reconciler issues are made
    for every environment instead. *)

Module Remote.

Record state := State {
  st_pull : Z * option string;          (* the answer of GitHub *)
  st_metadata : option metadata;
  st_environ : gmap string string;
  st_items : list work_item;
  st_comments : list (Z * comment);     (* work item id, comment *)
  st_next_id : Z
}.

Definition find_item (id : Z) (s : state) : option work_item :=
  List.find (λ item, wi_id item =? id) (st_items s).

(** The name of the field a path [/fields/<name>] points to. *)
Definition field_of_path (path : string) : option string :=
  if Py.starts_with "/fields/" path
  then Some (substring 8 (String.length path - 8) path) else None.

(** One operation of a patch document applied to an item. *)
Definition apply_op (item : work_item) (o : patch_op) : work_item :=
  match field_of_path (path o), value o with
  | Some name, Some (JStr v) =>
      WorkItem (wi_id item) (<[name := v]> (wi_fields item))
               (wi_relations item)
  | Some name, None =>
      if String.eqb (op o) "remove"
      then WorkItem (wi_id item) (delete name (wi_fields item))
                    (wi_relations item)
      else item
  | None, Some (JRel rel url c) =>
      WorkItem (wi_id item) (wi_fields item)
               (wi_relations item ++ [Relation (Some rel) (Some url) c])
  | _, _ => item
  end.

Definition apply_patch (item : work_item) (doc : list patch_op) : work_item :=
  foldl apply_op item doc.

Definition replace_item (item : work_item) (items : list work_item)
    : list work_item :=
  (λ old, if wi_id old =? wi_id item then item else old) <$> items.

Definition item_url (client : AdoClient) (id : Z) : string :=
  base_url client +:+ "/wit/workitems/" +:+ pretty id.

(** An item is a child of [parent_id] when it has the reverse hierarchy
    relation to it. *)
Definition is_child_of (client : AdoClient) (parent_id : Z)
    (item : work_item) : bool :=
  existsb (λ r, bool_decide
                  (rel_kind r = Some "System.LinkTypes.Hierarchy-Reverse"
                   ∧ rel_url r = Some (item_url client parent_id)))
          (wi_relations item).

Definition children_of (client : AdoClient) (parent_id : Z) (s : state)
    : list work_item :=
  List.filter (is_child_of client parent_id) (st_items s).

Definition with_items (s : state) (items : list work_item) (next : Z)
    : state :=
  State (st_pull s) (st_metadata s) (st_environ s) items (st_comments s) next.

Definition with_comments (s : state) (cs : list (Z * comment)) (next : Z)
    : state :=
  State (st_pull s) (st_metadata s) (st_environ s) (st_items s) cs next.

Definition handle : handler state :=
  λ q, match q return state → resp q * state with
  | GithubGetPull _ _ _ => λ s, (st_pull s, s)
  | ReadMetadata => λ s, (st_metadata s, s)
  | GetEnv name => λ s, (st_environ s !! name, s)
  | GetWorkItem _ id => λ s, (find_item id s, s)
  | UpdateWorkItem _ id doc => λ s,
      match find_item id s with
      | Some item =>
          (true, with_items s (replace_item (apply_patch item doc)
                                 (st_items s)) (st_next_id s))
      | None => (false, s)
      end
  | CreateWorkItem _ _ doc => λ s,
      let item := apply_patch (WorkItem (st_next_id s) ∅ []) doc in
      (Some item, with_items s (st_items s ++ [item]) (st_next_id s + 1))
  | PostWiqlChildren client parent_id => λ s,
      (200, WiqlRow (Some parent_id)
              :: ((λ item, WiqlRow (Some (wi_id item)))
                    <$> children_of client parent_id s), s)
  | GetWorkItems _ ids => λ s,
      (200, List.filter (λ item, bool_decide (wi_id item ∈ ids))
              (st_items s), s)
  | GetComments _ id => λ s,
      (snd <$> List.filter (λ c, fst c =? id) (st_comments s), s)
  | AddComment _ id text => λ s,
      let c := Comment (st_next_id s) (Some text) in
      (Some c, with_comments s (st_comments s ++ [(id, c)])
                 (st_next_id s + 1))
  | UpdateComment _ id cid text => λ s,
      if existsb (λ c, (fst c =? id) && (c_id (snd c) =? cid))
                 (st_comments s)
      then (true,
            with_comments s
              ((λ c, if (fst c =? id) && (c_id (snd c) =? cid)
                     then (id, Comment cid (Some text)) else c)
                 <$> st_comments s) (st_next_id s))
      else (false, s)
  | Stderr _ => λ s, (tt, s)
  end.

(** The titles of the children of a work item, and the URLs of its
    hyperlinks. *)
Definition child_titles (client : AdoClient) (parent_id : Z) (s : state)
    : list string :=
  title_of <$> children_of client parent_id s.

Definition hyperlink_urls (id : Z) (s : state) : list string :=
  match find_item id s with
  | Some item =>
      omap (λ r, if decide (rel_kind r = Some "Hyperlink")
                 then Some (default EmptyString (rel_url r)) else None)
           (wi_relations item)
  | None => []
  end.

End Remote.

(** ** The vocabulary of the statements *)

(** [p] is a substring of [s]. *)
Definition substring_of (p s : string) : Prop :=
  ∃ a b, s = a +:+ p +:+ b.

(** Two titles are equal case-insensitively. *)
Definition same_title (a b : string) : Prop := Py.lower a = Py.lower b.

(** The language of a pattern: [matches fl r s s1] when [r] matches at the
    start of [s] and leaves [s1]. The priorities of the matcher play no
    part in it. *)
Inductive matches (fl : flags) : regex → string → string → Prop :=
| M_Eps s : matches fl Eps s s
| M_Lit c x s : same_char fl c x = true → matches fl (Lit c) (String x s) s
| M_Space x s : Py.isspace x = true → matches fl Space (String x s) s
| M_Digit x s : Py.isdigit x = true → matches fl Digit (String x s) s
| M_Dot x s :
    dotall fl || negb (Ascii.eqb x newline) = true →
    matches fl Dot (String x s) s
| M_OneOf cs x s :
    existsb (same_char fl x) cs = true → matches fl (OneOf cs) (String x s) s
| M_Cat r1 r2 s s1 s2 :
    matches fl r1 s s1 → matches fl r2 s1 s2 → matches fl (Cat r1 r2) s s2
| M_OrL r1 r2 s s1 : matches fl r1 s s1 → matches fl (Or r1 r2) s s1
| M_OrR r1 r2 s s1 : matches fl r2 s s1 → matches fl (Or r1 r2) s s1
| M_Star0 gr r s : matches fl (Star gr r) s s
| M_StarS gr r s s1 s2 :
    matches fl r s s1 → matches fl (Star gr r) s1 s2 →
    matches fl (Star gr r) s s2
| M_Group r s s1 : matches fl r s s1 → matches fl (Group r) s s1
| M_Eol s : at_end s = true → matches fl Eol s s
| M_Ahead r s s1 : matches fl r s s1 → matches fl (Ahead r) s s.

(** The pattern matches somewhere in the text. *)
Definition occurs (fl : flags) (r : regex) (text : string) : Prop :=
  ∃ before s s1, text = before +:+ s ∧ matches fl r s s1.

(** The URLs of the hyperlink relations of a work item. *)
Definition hyperlink_urls (item : work_item) : list string :=
  omap (λ rel, if decide (rel_kind rel = Some "Hyperlink")
               then Some (default EmptyString (rel_url rel)) else None)
       (wi_relations item).

(** The ids of the children in the answer to the WIQL query, as
    [get_existing_child_titles] reads them. *)
Definition child_ids_of (parent_id : Z) (relations : list wiql_row)
    : list Z :=
  omap (λ rel, match row_target rel with
               | Some id => if decide (id ≠ parent_id) then Some id else None
               | None => None
               end) relations.

(** The environment shows the reconciler the children [children] of
    [parent_id]: the query answers, and so does the fetch of the children
    when there are any. [s1] is the state after these reads. *)
Definition shows_children {S : Type} (h : handler S) (client : AdoClient)
    (parent_id : Z) (children : list work_item) (s s1 : S) : Prop :=
  ∃ relations s0,
    h (PostWiqlChildren client parent_id) s = ((200, relations), s0) ∧
    match child_ids_of parent_id relations with
    | [] => children = [] ∧ s1 = s0
    | ids => h (GetWorkItems client ids) s0 = ((200, children), s1)
    end.

(** Some existing child has the requested title, case-insensitively. *)
Definition has_child_titled (children : list work_item) (title : string)
    : Prop :=
  ∃ child, child ∈ children ∧ same_title (title_of child) title.

#[global] Instance has_child_titled_dec children title :
  Decision (has_child_titled children title).
Proof.
  unfold has_child_titled, same_title.
  destruct (decide (Exists (λ child, Py.lower (title_of child)
                                     = Py.lower title) children)) as [H|H].
  - left. apply Exists_exists in H. exact H.
  - right. intros H'. apply H, Exists_exists. exact H'.
Defined.

(** The patch of the description and the tags: a document whose first
    operation replaces the description. *)
Definition is_description_patch (q : request) : Prop :=
  match q with
  | UpdateWorkItem _ _ (PatchOp "replace" "/fields/System.Description" _ :: _)
      => True
  | _ => False
  end.

(** The map from lower-case title to id that [get_existing_child_titles]
    builds from the children it is shown. *)
Definition existing_titles (children : list work_item) : gmap string Z :=
  foldl (λ (m : gmap string Z) item,
           <[Py.lower (title_of item) := wi_id item]> m) ∅ children.

(** The request that creates the child [title], and the one that adds the
    hyperlink [link]. *)
Definition create_child (client : AdoClient) (parent_id : Z)
    (area_path iteration_path title : string) : request :=
  CreateWorkItem client "Task"
    (child_patch_document client parent_id area_path iteration_path title).

Definition add_hyperlink (client : AdoClient) (work_item_id : Z)
    (link : string * string) : request :=
  UpdateWorkItem client work_item_id (hyperlink_patch_document link.1 link.2).

(** The parser that never finds a card number. *)
Definition without_card (P : parser) : parser :=
  Parser (λ _, Value None) (p_tags P) (p_children P) (p_comment P)
         (p_links P).

(** Every request the program can make satisfies [P]. *)
Inductive issues_only {A : Type} (P : request → Prop) : prog A → Prop :=
| IO_Ret a : issues_only P (Ret a)
| IO_Exit c : issues_only P (Exit c)
| IO_Raise e : issues_only P (Raise e)
| IO_Do q k : P q → (∀ r, issues_only P (k r)) → issues_only P (Do q k).

(** The program goes to its end: it neither exits nor raises, whatever
    the answers are. *)
Inductive returns {A : Type} : prog A → Prop :=
| R_Ret a : returns (Ret a)
| R_Do q k : (∀ r, returns (k r)) → returns (Do q k).

(** What each reconciler may ask. *)
Definition child_request (q : request) : Prop :=
  match q with
  | PostWiqlChildren _ _ | GetWorkItems _ _ | GetWorkItem _ _
  | CreateWorkItem _ _ _ | Stderr _ => True
  | _ => False
  end.

Definition comment_request (q : request) : Prop :=
  match q with
  | GetComments _ _ | AddComment _ _ _ | UpdateComment _ _ _ _ => True
  | _ => False
  end.

Definition hyperlink_request (q : request) : Prop :=
  match q with
  | GetWorkItem _ _ | Stderr _ => True
  | UpdateWorkItem _ _
      [PatchOp "add" "/relations/-" (Some (JRel "Hyperlink" _ _))] => True
  | _ => False
  end.

(** What the proofs about the matcher ask of the matcher of the body of a
    star: it finds matches of [r] only, and it depends on the answers of
    its continuation only. *)
Definition sound_for {R : Type} (fl : flags) (r : regex)
    (body : string → option string
            → (string → option string → option R) → option R) : Prop :=
  ∀ s g k x, body s g k = Some x →
    ∃ s1 g1, matches fl r s s1 ∧ k s1 g1 = Some x.

Definition respects_ext {R : Type}
    (body : string → option string
            → (string → option string → option R) → option R) : Prop :=
  ∀ s g k1 k2, (∀ s1 g1, k1 s1 g1 = k2 s1 g1) → body s g k1 = body s g k2.

(** The answer to a request that updates a work item. *)
Definition update_answer (e : event) : bool :=
  match ev_req e as q return resp q → bool with
  | UpdateWorkItem _ _ _ => λ ok, ok
  | _ => λ _, false
  end (ev_resp e).

(** The body of a comment carries the marker. *)
Definition marked (c : comment) : Prop :=
  substring_of COMMENT_MARKER (default EmptyString (c_text c)).

(** ** The scenarios *)

Module Scenario.

Definition client : AdoClient := Client "contoso" "web" "pat".

(** A remote with the configuration of [client], the work items [items]
    and the comments [comments]; GitHub answers [pull]. *)
Definition remote (pull : Z * option string) (items : list work_item)
    (comments : list (Z * comment)) : Remote.state :=
  Remote.State pull (Some (Metadata (Some "contoso") (Some "web") None))
    {["ADO_PAT" := "pat"]} items comments 100.

(** Work item 42, empty: no field, no relation, no comment. *)
Definition empty_card : Remote.state :=
  remote (404, None) [WorkItem 42 ∅ []] [].

(** [--pr-description text] *)
Definition direct (text : string) : arguments :=
  Args (Some text) None None None false.

(** [--pr-number 7 --repo contoso/web] *)
Definition pull_7 : arguments :=
  Args None (Some 7) (Some "contoso/web") None false.

Definition ship_it : string :=
  "Ship it.

ADO Card: 42
ADO Tags: bug, urgent
ADO Children:
- write tests
- update docs
".

(** Two titles that differ by case only, and the same URL twice. *)
Definition twice : string :=
  "ADO Card: 42
ADO Children:
- Task
- task
ADO Links:
- https://x
- https://x | again
".

(** A tags line with nothing on it, followed by another directive. *)
Definition no_tags : string :=
  "ADO Card: 42
ADO Tags:
ADO Children:
- write tests
".

(** Work item 42 in an area and an iteration, with the child 43 titled
    in capitals, the hyperlink [https://x] labelled [NameB], and a
    comment of the tool after a comment of somebody else. *)
Definition card_42 : work_item :=
  WorkItem 42
    {["System.AreaPath" := "Web"; "System.IterationPath" := "Sprint 1"]}
    [Relation (Some "Hyperlink") (Some "https://x") (Some "NameB")].

Definition child_43 : work_item :=
  WorkItem 43 {["System.Title" := "ADD TESTS"]}
    [Relation (Some "System.LinkTypes.Hierarchy-Reverse")
       (Some "https://dev.azure.com/contoso/web/_apis/wit/workitems/42")
       None].

Definition populated : Remote.state :=
  remote (404, None) [card_42; child_43]
    [(42, Comment 7 (Some "a remark"));
     (42, Comment 8 (Some ("<!-- ado-sync-comment -->" +:+ nl +:+ "old")))].

End Scenario.

(** ** The vocabulary of the further statements *)

(** Every character of the string satisfies [ok]. *)
Fixpoint every (ok : ascii → bool) (s : string) : bool :=
  match s with
  | EmptyString => true
  | String c s' => ok c && every ok s'
  end.

(** The string does not begin with a character that satisfies [ok]. *)
Definition stops (ok : ascii → bool) (s : string) : bool :=
  match s with
  | EmptyString => true
  | String c _ => negb (ok c)
  end.

(** A string that [strip] leaves as it is: no white space at either end. *)
Definition trimmed (s : string) : Prop := Py.strip s = s.

(** The language of a pattern with the text of group 1: as [matches], and
    the group goes from [g] to [g1]. *)
Inductive captures (fl : flags)
    : regex → string → string → option string → option string → Prop :=
| C_Eps s g : captures fl Eps s s g g
| C_Lit c x s g :
    same_char fl c x = true → captures fl (Lit c) (String x s) s g g
| C_Space x s g :
    Py.isspace x = true → captures fl Space (String x s) s g g
| C_Digit x s g :
    Py.isdigit x = true → captures fl Digit (String x s) s g g
| C_Dot x s g :
    dotall fl || negb (Ascii.eqb x newline) = true →
    captures fl Dot (String x s) s g g
| C_OneOf cs x s g :
    existsb (same_char fl x) cs = true →
    captures fl (OneOf cs) (String x s) s g g
| C_Cat r1 r2 s s1 s2 g g1 g2 :
    captures fl r1 s s1 g g1 → captures fl r2 s1 s2 g1 g2 →
    captures fl (Cat r1 r2) s s2 g g2
| C_OrL r1 r2 s s1 g g1 :
    captures fl r1 s s1 g g1 → captures fl (Or r1 r2) s s1 g g1
| C_OrR r1 r2 s s1 g g1 :
    captures fl r2 s s1 g g1 → captures fl (Or r1 r2) s s1 g g1
| C_Star0 gr r s g : captures fl (Star gr r) s s g g
| C_StarS gr r s s1 s2 g g1 g2 :
    captures fl r s s1 g g1 → captures fl (Star gr r) s1 s2 g1 g2 →
    captures fl (Star gr r) s s2 g g2
| C_Group r s s1 g g1 :
    captures fl r s s1 g g1 →
    captures fl (Group r) s s1 g (Some (consumed s s1))
| C_Eol s g : at_end s = true → captures fl Eol s s g g
| C_Ahead r s s1 g g1 :
    captures fl r s s1 g g1 → captures fl (Ahead r) s s g g.

Definition captures_for {R : Type} (fl : flags) (r : regex)
    (body : string → option string
            → (string → option string → option R) → option R) : Prop :=
  ∀ s g k x, body s g k = Some x →
    ∃ s1 g1, captures fl r s s1 g g1 ∧ k s1 g1 = Some x.

(** The predicate of a pattern of one character. *)
Definition class_of (fl : flags) (r : regex) : option (ascii → bool) :=
  match r with
  | Lit c => Some (same_char fl c)
  | Space => Some Py.isspace
  | Digit => Some Py.isdigit
  | Dot => Some (λ c, dotall fl || negb (Ascii.eqb c newline))
  | OneOf cs => Some (λ c, existsb (same_char fl c) cs)
  | _ => None
  end.

(** The pattern has a match that starts inside [before], in the text
    [before +:+ s]. *)
Definition matches_within (fl : flags) (r : regex) (before s : string)
    : Prop :=
  ∃ b1 b2 s1, before = b1 +:+ b2 ∧ b2 ≠ EmptyString
              ∧ matches fl r (b2 +:+ s) s1.

(** The literal [p] matches the text [x] character by character. *)
Fixpoint agree (fl : flags) (p x : string) : bool :=
  match p, x with
  | EmptyString, EmptyString => true
  | String c p', String y x' => same_char fl c y && agree fl p' x'
  | _, _ => false
  end.

(** [(?:\n(?=ADO\s)|$)], what ends the text of the comment. *)
Definition comment_end : regex :=
  Or (Cat (Lit newline) (Ahead (Cat (Str "ADO") Space))) Eol.

(** No match of the pattern starts inside [before], in the text
    [before +:+ s]: the matcher finds none at any of these places. *)
Fixpoint no_match_from (fl : flags) (r : regex) (before s : string) : bool :=
  match before with
  | EmptyString => true
  | String c before' =>
      match match_at fl r (before +:+ s) with
      | Some _ => false
      | None => no_match_from fl r before' s
      end
  end.

(** The trace [t] ends with the reading of the configuration from which
    [main] builds [client]: the metadata file, which gives the
    organization and the project, then the environment variable that the
    file names, [ADO_PAT] when it names none, which gives the token; none
    of the three is empty. *)
Definition configures (t : list event) (client : AdoClient) : Prop :=
  ∃ md t1,
    t = t1 ++ [Ev ReadMetadata (Some md);
               Ev (GetEnv (default "ADO_PAT" (pat_env_var md)))
                  (Some (client_pat client))]
    ∧ organization md = Some (client_organization client)
    ∧ project md = Some (client_project client)
    ∧ client_organization client ≠ EmptyString
    ∧ client_project client ≠ EmptyString
    ∧ client_pat client ≠ EmptyString.

(** ** Further scenarios *)

(** A remote whose query for the children fails with status 500; its
    other calls are those of [Remote]. *)
Definition wiql_down : handler Remote.state :=
  λ q, match q return Remote.state → resp q * Remote.state with
       | PostWiqlChildren _ _ => λ s, ((500, []), s)
       | q' => Remote.handle q'
       end.

(** A description with a comment of two lines before another directive. *)
Definition with_comment : string :=
  "Fix the build.

ADO Card: 42
ADO Comment: looks good,
ship it
ADO Links:
- https://x
".

(** [n] times the digit 1. *)
Fixpoint ones (n : nat) : string :=
  match n with
  | O => EmptyString
  | S n' => String "1" (ones n')
  end.

(** * Properties *)

(** ** Strings *)

Lemma string_app_cons (x : ascii) (a b : string) :
  String x a +:+ b = String x (a +:+ b).
Proof. reflexivity. Qed.

Lemma string_app_length (a b : string) :
  String.length (a +:+ b) = (String.length a + String.length b)%nat.
Proof.
  induction a as [|c a IH]; [done|].
  rewrite string_app_cons. simpl. by rewrite IH.
Qed.

Lemma string_app_assoc (a b c : string) : (a +:+ b) +:+ c = a +:+ (b +:+ c).
Proof.
  induction a as [|x a IH]; [done|]. rewrite !string_app_cons. by rewrite IH.
Qed.

Lemma starts_with_spec (p s : string) :
  Py.starts_with p s = true ↔ ∃ b, s = p +:+ b.
Proof.
  revert s. induction p as [|x p IH]; intros s; simpl.
  - split; [|done]. intros _. by exists s.
  - destruct s as [|y s].
    + split; [done|]. intros [b Hb]. by rewrite string_app_cons in Hb.
    + rewrite andb_true_iff, IH, Ascii.eqb_eq. split.
      * intros [-> [b ->]]. by exists b.
      * intros [b Hb]. rewrite string_app_cons in Hb.
        inversion Hb; subst. split; [done|]. by exists b.
Qed.

(** [Py.contains] decides the substring relation. *)
Lemma contains_spec (p s : string) :
  Py.contains p s = true ↔ substring_of p s.
Proof.
  unfold substring_of. induction s as [|y s IH].
  - cbn [Py.contains]. rewrite orb_false_r, starts_with_spec. split.
    + intros [b Hb]. by exists EmptyString, b.
    + intros (a & b & H). destruct a as [|x a]; [by exists b|].
      by rewrite string_app_cons in H.
  - cbn [Py.contains]. rewrite orb_true_iff, starts_with_spec, IH. split.
    + intros [[b Hb]|(a & b & ->)].
      * by exists EmptyString, b.
      * by exists (String y a), b.
    + intros (a & b & H). destruct a as [|x a].
      * left. by exists b.
      * right. rewrite string_app_cons in H. inversion H; subst.
        by exists a, b.
Qed.

(** ** The matcher and the language of a pattern *)

Section Matcher.
Context (fl : flags).

Lemma star_loop_sound {R : Type} (r : regex) body gr
    (k : string → option string → option R) :
  sound_for fl r body →
  ∀ n s g x, star_loop body gr k n s g = Some x →
    ∃ s1 g1, matches fl (Star gr r) s s1 ∧ k s1 g1 = Some x.
Proof.
  intros Hbody n. induction n as [|n IHn]; intros s g x H.
  - destruct gr; simpl in H.
    + eauto using matches.
    + destruct (k s g) eqn:E; [|done]. inversion H; subst.
      eauto using matches.
  - assert (Hagain : ∀ y,
      body s g (λ s1 g1, if (String.length s1 <? String.length s)%nat
                         then star_loop body gr k n s1 g1 else None)
        = Some y →
      ∃ s1 g1, matches fl (Star gr r) s s1 ∧ k s1 g1 = Some y).
    { intros y Hy. apply Hbody in Hy as (s1 & g1 & M1 & Hy).
      destruct (String.length s1 <? String.length s)%nat; [|done].
      apply IHn in Hy as (s2 & g2 & M2 & Hy). eauto using matches. }
    destruct gr; simpl in H.
    + match type of H with
      | match ?a with _ => _ end = _ => destruct a eqn:E
      end.
      * inversion H; subst. by apply Hagain.
      * eauto using matches.
    + destruct (k s g) eqn:E.
      * inversion H; subst. eauto using matches.
      * by apply Hagain.
Qed.

(** Soundness: what the matcher finds is a match of the pattern. *)
Lemma m_sound (r : regex) : ∀ R : Type, sound_for (R:=R) fl r (m fl r).
Proof.
  induction r as [ |c| | | |cs|r1 IH1 r2 IH2|r1 IH1 r2 IH2|gr r1 IH1
                 |r1 IH1| |r1 IH1];
    intros R s g k x H; simpl in H.
  - eauto using matches.
  - destruct s as [|c0 s]; [done|].
    destruct (same_char fl c c0) eqn:E; [|done]. eauto using matches.
  - destruct s as [|c0 s]; [done|].
    destruct (Py.isspace c0) eqn:E; [|done]. eauto using matches.
  - destruct s as [|c0 s]; [done|].
    destruct (Py.isdigit c0) eqn:E; [|done]. eauto using matches.
  - destruct s as [|c0 s]; [done|].
    destruct (dotall fl || negb (Ascii.eqb c0 newline)) eqn:E; [|done].
    eauto using matches.
  - destruct s as [|c0 s]; [done|].
    destruct (existsb (same_char fl c0) cs) eqn:E; [|done].
    eauto using matches.
  - apply IH1 in H as (s1 & g1 & M1 & H).
    apply IH2 in H as (s2 & g2 & M2 & H). eauto using matches.
  - destruct (m fl r1 s g k) eqn:E.
    + inversion H; subst. apply IH1 in E as (s1 & g1 & M1 & E).
      eauto using matches.
    + apply IH2 in H as (s1 & g1 & M1 & E'). eauto using matches.
  - eapply star_loop_sound; [apply IH1|exact H].
  - apply IH1 in H as (s1 & g1 & M1 & H). eauto using matches.
  - destruct (at_end s) eqn:E; [|done]. eauto using matches.
  - destruct (m fl r1 s g (λ _ _, Some ())) eqn:E; [|done].
    apply IH1 in E as (s1 & g1 & M1 & _). eauto using matches.
Qed.

Lemma search_sound (r : regex) (text : string) (f : found) :
  search fl r text = Some f → occurs fl r text.
Proof.
  induction text as [|c text IH]; simpl; unfold match_at.
  - destruct (m fl r EmptyString None _) eqn:E; [|done]. intros _.
    apply m_sound in E as (s1 & g1 & M1 & _).
    by exists EmptyString, EmptyString, s1.
  - destruct (m fl r (String c text) None _) eqn:E.
    + intros _. apply m_sound in E as (s1 & g1 & M1 & _).
      by exists EmptyString, (String c text), s1.
    + intros H. apply IH in H as (b & s & s1 & -> & M1).
      by exists (String c b), s, s1.
Qed.

Lemma star_loop_ext {R : Type} body gr
    (k1 k2 : string → option string → option R) :
  respects_ext body → (∀ s1 g1, k1 s1 g1 = k2 s1 g1) →
  ∀ n s g, star_loop body gr k1 n s g = star_loop body gr k2 n s g.
Proof.
  intros Hb Hk n. induction n as [|n IHn]; intros s g; simpl.
  - by rewrite Hk.
  - rewrite Hk.
    rewrite (Hb s g _ (λ s1 g1,
               if (String.length s1 <? String.length s)%nat
               then star_loop body gr k2 n s1 g1 else None)).
    + done.
    + intros s1 g1. by rewrite IHn.
Qed.

Lemma m_ext (r : regex) : ∀ R : Type, respects_ext (R:=R) (m fl r).
Proof.
  induction r as [ |c| | | |cs|r1 IH1 r2 IH2|r1 IH1 r2 IH2|gr r1 IH1
                 |r1 IH1| |r1 IH1];
    intros R s g k1 k2 Hk; simpl.
  - apply Hk.
  - destruct s; [done|]. by rewrite Hk.
  - destruct s; [done|]. by rewrite Hk.
  - destruct s; [done|]. by rewrite Hk.
  - destruct s; [done|]. by rewrite Hk.
  - destruct s; [done|]. by rewrite Hk.
  - apply IH1. intros s1 g1. by apply IH2.
  - by rewrite (IH1 _ s g k1 k2 Hk), (IH2 _ s g k1 k2 Hk).
  - by apply star_loop_ext.
  - apply IH1. intros s1 g1. apply Hk.
  - by rewrite Hk.
  - by rewrite Hk.
Qed.

Lemma star_loop_none {R : Type} body gr :
  respects_ext body →
  (∀ s g, body s g (λ _ _, None) = None) →
  ∀ n s g, star_loop (R:=R) body gr (λ _ _, None) n s g = None.
Proof.
  intros Hb Hnone n. induction n as [|n IHn]; intros s g; simpl.
  - by destruct gr.
  - rewrite (Hb s g _ (λ _ _, None)).
    + rewrite Hnone. by destruct gr.
    + intros s1 g1. rewrite IHn. by destruct (_ <? _)%nat.
Qed.

Lemma m_none (r : regex) :
  ∀ (R : Type) s g, m (R:=R) fl r s g (λ _ _, None) = None.
Proof.
  induction r as [ |c| | | |cs|r1 IH1 r2 IH2|r1 IH1 r2 IH2|gr r1 IH1
                 |r1 IH1| |r1 IH1];
    intros R s g; simpl.
  - done.
  - destruct s; [done|]. by destruct (same_char _ _ _).
  - destruct s; [done|]. by destruct (Py.isspace _).
  - destruct s; [done|]. by destruct (Py.isdigit _).
  - destruct s; [done|]. by destruct (_ || _).
  - destruct s; [done|]. by destruct (existsb _ _).
  - rewrite (m_ext r1 _ s g _ (λ _ _, None)); [apply IH1|].
    intros s1 g1. apply IH2.
  - by rewrite IH1, IH2.
  - apply star_loop_none; [apply m_ext|apply IH1].
  - apply IH1.
  - by destruct (at_end s).
  - by destruct (m fl r1 s g _).
Qed.

(** The fuel of the loop is never what stops it: any fuel that is at
    least the length of the text gives the same result. *)
Lemma star_loop_fuel {R : Type} body gr
    (k : string → option string → option R) :
  respects_ext body →
  (∀ s g, body s g (λ _ _, None) = None) →
  ∀ n1 n2 s g, (String.length s ≤ n1)%nat → (String.length s ≤ n2)%nat →
    star_loop body gr k n1 s g = star_loop body gr k n2 s g.
Proof.
  intros Hb Hnone.
  assert (Hstuck : ∀ n s g, String.length s = 0%nat →
    body s g (λ s1 g1, if (String.length s1 <? String.length s)%nat
                       then star_loop body gr k n s1 g1 else None) = None).
  { intros n s g Hs. rewrite (Hb s g _ (λ _ _, None)); [apply Hnone|].
    intros s1 g1. rewrite Hs. by destruct s1. }
  intros n1. induction n1 as [|n1 IH]; intros n2 s g H1 H2.
  - destruct n2 as [|n2]; [done|]. simpl. rewrite Hstuck by lia. done.
  - destruct n2 as [|n2].
    + simpl. rewrite Hstuck by lia. done.
    + simpl.
      rewrite (Hb s g _ (λ s1 g1,
                 if (String.length s1 <? String.length s)%nat
                 then star_loop body gr k n2 s1 g1 else None)); [done|].
      intros s1 g1.
      destruct (String.length s1 <? String.length s)%nat eqn:E; [|done].
      apply Nat.ltb_lt in E. apply IH; lia.
Qed.

Lemma matches_suffix r s s1 : matches fl r s s1 → ∃ a, s = a +:+ s1.
Proof.
  induction 1 as [s|c x s _|x s _|x s _|x s _|cs x s _
                 |r1 r2 s s1 s2 _ [a ->] _ [b ->]
                 |r1 r2 s s1 _ IH|r1 r2 s s1 _ IH
                 |gr r s|gr r s s1 s2 _ [a ->] _ [b ->]
                 |r s s1 _ IH|s _|r s s1 _ _];
    try (by exists EmptyString);
    try (by exists (String x EmptyString)); try done.
  - exists (a +:+ b). by rewrite string_app_assoc.
  - exists (a +:+ b). by rewrite string_app_assoc.
Qed.

(** Completeness: where the pattern has a match, the matcher finds one
    (the first in the order of its priorities). *)
Lemma m_complete r s s1 :
  matches fl r s s1 →
  ∀ (R : Type) g (k : string → option string → option R),
    (∀ g1, is_Some (k s1 g1)) → is_Some (m fl r s g k).
Proof.
  induction 1 as [s|c x s Hc|x s Hc|x s Hc|x s Hc|cs x s Hc
                 |r1 r2 s s1 s2 _ IH1 _ IH2
                 |r1 r2 s s1 _ IH|r1 r2 s s1 _ IH
                 |gr r s|gr r s s1 s2 M1 IH1 M2 IH2
                 |r s s1 _ IH|s Hc|r s s1 _ IH];
    intros R g k Hk; simpl; try (rewrite Hc; by apply Hk).
  - apply Hk.
  - apply IH1. intros g1. by apply IH2.
  - destruct (IH _ g k Hk) as [x ->]. by eexists.
  - destruct (m fl r1 s g k); [by eexists|]. by apply IH.
  - destruct (String.length s); simpl.
    + destruct gr; [|destruct (Hk g) as [x ->]; by eexists].
      apply Hk.
    + destruct gr.
      * destruct (m fl r s g _); [by eexists|apply Hk].
      * destruct (Hk g) as [x ->]. by eexists.
  - destruct (matches_suffix _ _ _ M1) as [a ->].
    destruct a as [|c a].
    { simpl in *. by apply IH2. }
    simpl String.length. simpl star_loop.
    assert (Hagain : is_Some
      (m fl r (String c a +:+ s1) g
         (λ s0 g1,
            if (String.length s0 <? String.length (String c a +:+ s1))%nat
            then star_loop (m fl r) gr k (String.length (a +:+ s1)) s0 g1
            else None))).
    { apply IH1. intros g1.
      replace (String.length s1 <? String.length (String c a +:+ s1))%nat
        with true.
      2:{ symmetry. apply Nat.ltb_lt. simpl. rewrite string_app_length.
          lia. }
      rewrite (star_loop_fuel (m fl r) gr k (m_ext r R) (m_none r R)
                 _ (String.length s1));
        [|rewrite string_app_length; lia|lia].
      specialize (IH2 R g1 k Hk). simpl in IH2. exact IH2. }
    destruct gr.
    + destruct Hagain as [x Hx]. simpl in Hx. rewrite Hx. by eexists.
    + destruct (k _ g); [by eexists|]. exact Hagain.
  - apply IH. intros _. apply Hk.
  - destruct (IH unit g (λ _ _, Some ()) (λ _, ltac:(by eexists)))
      as [x ->].
    apply Hk.
Qed.

Lemma search_complete (r : regex) (text : string) :
  occurs fl r text → is_Some (search fl r text).
Proof.
  intros (b & s & s1 & -> & M). induction b as [|c b IH]; simpl.
  - assert (H : is_Some (match_at fl r s))
      by (apply (m_complete _ _ _ M); by eexists).
    destruct H as [x Hx]. destruct s; simpl; rewrite Hx; by eexists.
  - destruct (match_at fl r _); [by eexists|]. exact IH.
Qed.
End Matcher.

(** The card number is missing exactly when its pattern matches nowhere. *)
Lemma extract_ado_card_number_none (text : string) :
  extract_ado_card_number text = Value None
  ↔ ¬ occurs IGNORECASE card_pattern text.
Proof.
  unfold extract_ado_card_number. split.
  - intros H Ho. apply search_complete in Ho as [f Hf].
    rewrite Hf in H. by destruct (Py.int _).
  - intros H. destruct (search IGNORECASE card_pattern text) eqn:E; [|done].
    destruct H. by eapply search_sound.
Qed.

(** ** Runs of programs *)

Section Exec.
Context {S : Type} (h : handler S).

Lemma exec_bind {A B : Type} (p : prog A) (f : A → prog B) (s : S) :
  exec h (p ≫= f) s =
  match exec h p s with
  | (Returned a, s1, t1) =>
      let '(o, s2, t2) := exec h (f a) s1 in (o, s2, t1 ++ t2)
  | (Exited c, s1, t1) => (Exited c, s1, t1)
  | (Crashed e, s1, t1) => (Crashed e, s1, t1)
  end.
Proof.
  revert s. induction p as [a|c|e|q k IH]; intros s; simpl.
  - change (Ret a ≫= f) with (f a).
    by destruct (exec h (f a) s) as [[o s2] t2].
  - done.
  - done.
  - change (Do q k ≫= f) with (Do q (λ r, k r ≫= f)). simpl.
    destruct (h q s) as [r s1]. rewrite IH.
    destruct (exec h (k r) s1) as [[[a|c|e] s2] t2]; try done.
    by destruct (exec h (f a) s2) as [[o s3] t3].
Qed.

Lemma exec_call (q : request) (s : S) :
  exec h (call q) s = (Returned (h q s).1, (h q s).2, [Ev q (h q s).1]).
Proof. unfold call. simpl. by destruct (h q s). Qed.

Lemma exec_ret {A : Type} (a : A) (s : S) :
  exec h (mret a) s = (Returned a, s, []).
Proof. done. Qed.

Lemma issues_only_exec {A : Type} (P : request → Prop) (p : prog A) s :
  issues_only P p → Forall P (requests (exec h p s).2).
Proof.
  intros Hp. revert s. induction Hp as [a|c|e|q k Hq _ IH]; intros s;
    try by constructor.
  simpl. destruct (h q s) as [r s1]. specialize (IH r s1).
  destruct (exec h (k r) s1) as [[o s2] t]. by constructor.
Qed.

Lemma returns_exec {A : Type} (p : prog A) (s : S) :
  returns p → ∃ a, (exec h p s).1.1 = Returned a.
Proof.
  intros Hp. revert s. induction Hp as [a|q k _ IH]; intros s.
  - by exists a.
  - simpl. destruct (h q s) as [r s1]. destruct (IH r s1) as [a Ha].
    destruct (exec h (k r) s1) as [[o s2] t]. by exists a.
Qed.
End Exec.

Lemma mutations_app (t1 t2 : list event) :
  mutations (t1 ++ t2) = mutations t1 ++ mutations t2.
Proof. unfold mutations, requests. by rewrite fmap_app, filter_app. Qed.

Lemma requests_app (t1 t2 : list event) :
  requests (t1 ++ t2) = requests t1 ++ requests t2.
Proof. unfold requests. by rewrite fmap_app. Qed.

Lemma mutations_cons (e : event) (t : list event) :
  mutations (e :: t) =
  if is_mutation (ev_req e) then ev_req e :: mutations t else mutations t.
Proof.
  unfold mutations, requests. rewrite fmap_cons, filter_cons.
  destruct (is_mutation (ev_req e)); by case_decide.
Qed.

(** No request to Azure DevOps, so no mutation. *)
Lemma mutations_no_ado (t : list event) :
  Forall (λ q, is_ado q = false) (requests t) → mutations t = [].
Proof.
  induction t as [|e t IH]; [done|].
  unfold requests. rewrite fmap_cons, Forall_cons. intros [He Ht].
  rewrite mutations_cons, (IH Ht). by destruct (ev_req e).
Qed.

Section Kinds.
Context (P : request → Prop).

Lemma issues_only_bind {A B : Type} (p : prog A) (f : A → prog B) :
  issues_only P p → (∀ a, issues_only P (f a)) → issues_only P (p ≫= f).
Proof.
  intros Hp Hf. induction Hp as [a|c|e|q k Hq _ IH].
  - apply Hf.
  - constructor.
  - constructor.
  - change (Do q k ≫= f) with (Do q (λ r, k r ≫= f)). by constructor.
Qed.

Lemma issues_only_for_each {A : Type} (l : list A) (body : A → prog unit) :
  (∀ x, issues_only P (body x)) → issues_only P (for_each l body).
Proof.
  intros Hb. induction l as [|x l IH]; [constructor|].
  cbn [for_each]. by apply issues_only_bind.
Qed.
End Kinds.

Lemma issues_only_weaken {A : Type} (P Q : request → Prop) (p : prog A) :
  (∀ q, P q → Q q) → issues_only P p → issues_only Q p.
Proof. intros HPQ Hp. induction Hp; constructor; auto. Qed.

Lemma returns_bind {A B : Type} (p : prog A) (f : A → prog B) :
  returns p → (∀ a, returns (f a)) → returns (p ≫= f).
Proof.
  intros Hp Hf. induction Hp as [a|q k _ IH].
  - apply Hf.
  - change (Do q k ≫= f) with (Do q (λ r, k r ≫= f)). by constructor.
Qed.

Lemma returns_call (q : request) : returns (call q).
Proof. constructor. intros r. constructor. Qed.

Lemma returns_for_each {A : Type} (l : list A) (body : A → prog unit) :
  (∀ x, returns (body x)) → returns (for_each l body).
Proof.
  intros Hb. induction l as [|x l IH]; [constructor|].
  cbn [for_each]. by apply returns_bind.
Qed.

(** Goals on what a program may ask and on its going to its end, by the
    structure of the program. *)
Ltac kinds :=
  repeat first
    [ progress intros
    | apply issues_only_bind | apply issues_only_for_each
    | apply returns_bind | apply returns_for_each
    | apply returns_call
    | constructor; done
    | constructor
    | case_decide
    | match goal with
      | |- context [match ?x with _ => _ end] => destruct x
      end ].

Lemma sync_child_items_kind client parent_id titles :
  issues_only child_request (sync_child_items client parent_id titles)
  ∧ returns (sync_child_items client parent_id titles).
Proof.
  unfold sync_child_items, get_existing_child_titles, eprint.
  split; destruct titles; kinds.
Qed.

Lemma sync_comment_kind client id text :
  issues_only comment_request (sync_comment client id text)
  ∧ returns (sync_comment client id text).
Proof.
  unfold sync_comment. split.
  - destruct (negb _); [constructor|].
    apply issues_only_bind; [by constructor; [|constructor]|].
    intros comments. induction comments as [|c cs IH]; [kinds|].
    destruct (Py.contains _ _); [kinds|apply IH].
  - destruct (negb _); [constructor|].
    apply returns_bind; [apply (returns_call (GetComments client id))|].
    intros comments. induction comments as [|c cs IH]; [kinds|].
    destruct (Py.contains _ _); [kinds|apply IH].
Qed.

Lemma sync_hyperlinks_kind client id links :
  issues_only hyperlink_request (sync_hyperlinks client id links)
  ∧ returns (sync_hyperlinks client id links).
Proof.
  unfold sync_hyperlinks, get_existing_hyperlinks, eprint.
  split; destruct links; kinds.
Qed.

Lemma get_pr_description_kind args :
  issues_only (λ q, is_ado q = false) (get_pr_description args).
Proof.
  unfold get_pr_description, get_github_pr_description, eprint. kinds.
Qed.

(** ** The child-item reconciler *)

Lemma existing_titles_lookup (children : list work_item) (title : string) :
  is_Some (existing_titles children !! Py.lower title)
  ↔ has_child_titled children title.
Proof.
  unfold existing_titles, has_child_titled, same_title.
  assert (Hacc : ∀ (acc : gmap string Z),
    is_Some (foldl (λ (m : gmap string Z) item,
                      <[Py.lower (title_of item) := wi_id item]> m)
                   acc children !! Py.lower title)
    ↔ is_Some (acc !! Py.lower title)
      ∨ ∃ child, child ∈ children
                 ∧ Py.lower (title_of child) = Py.lower title).
  { induction children as [|c cs IH]; intros acc; simpl.
    - split; [by left|]. intros [H|(c & Hc & _)]; [done|].
      by apply elem_of_nil in Hc.
    - rewrite IH. rewrite lookup_insert_is_Some. split.
      + intros [[E|[_ H]]|(c' & Hc' & E)].
        * right. exists c. split; [left|done].
        * by left.
        * right. exists c'. split; [by right|done].
      + intros [H|(c' & Hc' & E)].
        * destruct (decide (Py.lower (title_of c) = Py.lower title));
            left; [by left|by right].
        * apply elem_of_cons in Hc' as [->|Hc'].
          -- left. by left.
          -- right. by exists c'. }
  rewrite Hacc, lookup_empty. split.
  - by intros [[x Hx]|H'].
  - intros H'. by right.
Qed.

Section Children.
Context {S : Type} (h : handler S) (client : AdoClient) (parent_id : Z).

Lemma exec_get_existing_child_titles children s s1 :
  shows_children h client parent_id children s s1 →
  ∃ t, exec h (get_existing_child_titles client parent_id) s
       = (Returned (existing_titles children), s1, t)
       ∧ mutations t = [].
Proof.
  intros (relations & s0 & Hq & Hc).
  unfold get_existing_child_titles. simpl. rewrite Hq. simpl.
  fold (child_ids_of parent_id relations).
  destruct (child_ids_of parent_id relations) as [|id ids] eqn:E.
  - destruct Hc as [-> ->]. eexists. split; [reflexivity|done].
  - simpl. rewrite Hc. simpl. eexists. split; [reflexivity|done].
Qed.

(** The loop over the requested titles: one creation for each title that
    is not in [existing], in the order of the request, whatever the
    creations answer. *)
Lemma exec_create_loop (existing : gmap string Z) area_path iteration_path
    (titles : list string) (s : S) :
  let r := exec h
    (for_each titles (λ title,
       if decide (is_Some (existing !! Py.lower title)) then Ret tt
       else
         result ← call (create_child client parent_id
                          area_path iteration_path title);
         match result with
         | Some _ => Ret tt
         | None => eprint ("  Failed to create child: '" +:+ title +:+ "'")
         end)) s in
  r.1.1 = Returned tt ∧
  mutations r.2 =
    create_child client parent_id area_path iteration_path
      <$> filter (λ title, ¬ is_Some (existing !! Py.lower title)) titles.
Proof.
  revert s. induction titles as [|title titles IH]; intros s; [done|].
  cbn [for_each]. rewrite exec_bind.
  rewrite filter_cons. case_decide as Hin.
  - rewrite decide_False by tauto. simpl. specialize (IH s). simpl in IH.
    by destruct (exec h _ s) as [[o s2] t2].
  - rewrite decide_True by done. simpl.
    destruct (h (create_child client parent_id area_path iteration_path
                   title) s) as [[item|] s1] eqn:Hc; simpl.
    + specialize (IH s1). simpl in IH.
      destruct (exec h _ s1) as [[o s2] t2]. simpl in *.
      destruct IH as [-> IH]. split; [done|].
      rewrite mutations_cons. simpl. by rewrite IH.
    + destruct (h (Stderr _) s1) as [[] s1'].
      specialize (IH s1'). simpl in IH.
      destruct (exec h _ s1') as [[o s2] t2]. simpl in *.
      destruct IH as [-> IH]. split; [done|].
      rewrite !mutations_cons. simpl. by rewrite IH.
Qed.

(** The requests of the reconciler that change something, when the
    environment shows it [children] and the parent [parent]. *)
Lemma sync_child_items_mutations children parent titles s s1 s2 :
  shows_children h client parent_id children s s1 →
  h (GetWorkItem client parent_id) s1 = (Some parent, s2) →
  let r := exec h (sync_child_items client parent_id titles) s in
  r.1.1 = Returned tt ∧
  mutations r.2 =
    create_child client parent_id
      (default EmptyString (wi_fields parent !! "System.AreaPath"))
      (default EmptyString (wi_fields parent !! "System.IterationPath"))
      <$> filter (λ title, ¬ has_child_titled children title) titles.
Proof.
  intros Hshow Hparent. destruct titles as [|title titles]; [done|].
  destruct (exec_get_existing_child_titles _ _ _ Hshow) as (t & Ht & Hm).
  unfold sync_child_items. cbv zeta. rewrite exec_bind, Ht.
  rewrite exec_bind, (exec_call h (GetWorkItem client parent_id)), Hparent.
  cbn [fst snd].
  pose proof (exec_create_loop (existing_titles children)
    (default EmptyString (wi_fields parent !! "System.AreaPath"))
    (default EmptyString (wi_fields parent !! "System.IterationPath"))
    (title :: titles) s2) as Hloop.
  cbv zeta in Hloop. unfold create_child in Hloop at 1.
  destruct (exec h _ s2) as [[o s3] t3]. cbn [fst snd] in *.
  destruct Hloop as [-> Hloop]. split; [done|].
  rewrite !mutations_app, Hm, Hloop.
  change (mutations [_]) with (@nil request). cbn [app]. f_equal.
  apply list_filter_iff. intros t'. by rewrite existing_titles_lookup.
Qed.
End Children.

(** What the patch document of a new child holds. *)
Lemma child_patch_document_spec client parent_id area_path iteration_path
    title :
  let doc :=
    child_patch_document client parent_id area_path iteration_path title in
  PatchOp "add" "/fields/System.Title" (Some (JStr title)) ∈ doc
  ∧ PatchOp "add" "/relations/-"
      (Some (JRel "System.LinkTypes.Hierarchy-Reverse"
               (base_url client +:+ "/wit/workitems/" +:+ pretty parent_id)
               None)) ∈ doc
  ∧ (area_path ≠ EmptyString →
     PatchOp "add" "/fields/System.AreaPath" (Some (JStr area_path)) ∈ doc)
  ∧ (iteration_path ≠ EmptyString →
     PatchOp "add" "/fields/System.IterationPath"
       (Some (JStr iteration_path)) ∈ doc).
Proof.
  unfold child_patch_document.
  destruct area_path as [|a ap], iteration_path as [|i ip]; cbn;
    repeat split; intros; try done; set_solver.
Qed.

(** ** The hyperlink reconciler *)

Lemma existing_hyperlinks_spec (item : work_item) (url : string) :
  url ∈ foldl (λ (urls : gset string) rel,
                 if decide (rel_kind rel = Some "Hyperlink")
                 then urls ∪ {[default EmptyString (rel_url rel)]}
                 else urls) ∅ (wi_relations item)
  ↔ url ∈ hyperlink_urls item.
Proof.
  unfold hyperlink_urls.
  assert (Hacc : ∀ acc : gset string,
    url ∈ foldl (λ (urls : gset string) rel,
                   if decide (rel_kind rel = Some "Hyperlink")
                   then urls ∪ {[default EmptyString (rel_url rel)]}
                   else urls) acc (wi_relations item)
    ↔ url ∈ acc ∨
      url ∈ omap (λ rel, if decide (rel_kind rel = Some "Hyperlink")
                         then Some (default EmptyString (rel_url rel))
                         else None) (wi_relations item)).
  { induction (wi_relations item) as [|r rs IH]; intros acc; simpl.
    - rewrite elem_of_nil. tauto.
    - rewrite IH. case_decide.
      + rewrite elem_of_union, elem_of_singleton, elem_of_cons. tauto.
      + tauto. }
  rewrite Hacc, elem_of_empty. tauto.
Qed.

Section Hyperlinks.
Context {S : Type} (h : handler S) (client : AdoClient) (work_item_id : Z).

Lemma exec_link_loop (existing : gset string)
    (links : list (string * string)) (s : S) :
  let r := exec h
    (for_each links (λ '(url, name),
       if decide (url ∈ existing) then Ret tt
       else
         ok ← call (UpdateWorkItem client work_item_id
                      (hyperlink_patch_document url name));
         if ok : bool then Ret tt
         else eprint ("  Failed to add link: '" +:+ name +:+ "'"))) s in
  r.1.1 = Returned tt ∧
  mutations r.2 =
    add_hyperlink client work_item_id
      <$> filter (λ link, link.1 ∉ existing) links.
Proof.
  revert s. induction links as [|[url name] links IH]; intros s; [done|].
  cbn [for_each]. rewrite exec_bind.
  rewrite filter_cons. cbn [fst]. case_decide as Hin.
  - rewrite decide_False by tauto. simpl. specialize (IH s). simpl in IH.
    by destruct (exec h _ s) as [[o s2] t2].
  - rewrite decide_True by done. simpl.
    destruct (h (UpdateWorkItem client work_item_id
                   (hyperlink_patch_document url name)) s)
      as [[|] s1] eqn:Hc; simpl.
    + specialize (IH s1). simpl in IH.
      destruct (exec h _ s1) as [[o s2] t2]. simpl in *.
      destruct IH as [-> IH]. split; [done|].
      rewrite mutations_cons. simpl. by rewrite IH.
    + destruct (h (Stderr _) s1) as [[] s1'].
      specialize (IH s1'). simpl in IH.
      destruct (exec h _ s1') as [[o s2] t2]. simpl in *.
      destruct IH as [-> IH]. split; [done|].
      rewrite !mutations_cons. simpl. by rewrite IH.
Qed.

Lemma sync_hyperlinks_mutations item links s s1 :
  h (GetWorkItem client work_item_id) s = (Some item, s1) →
  let r := exec h (sync_hyperlinks client work_item_id links) s in
  r.1.1 = Returned tt ∧
  mutations r.2 =
    add_hyperlink client work_item_id
      <$> filter (λ link, link.1 ∉ hyperlink_urls item) links.
Proof.
  intros Hitem. destruct links as [|link links]; [done|].
  unfold sync_hyperlinks, get_existing_hyperlinks. cbv zeta.
  rewrite !exec_bind, (exec_call h (GetWorkItem client work_item_id)), Hitem.
  cbn [fst snd]. rewrite exec_ret.
  match goal with
  | |- context [for_each _ (λ '(url, name),
                  if decide (url ∈ ?e) then _ else _)] =>
      pose proof (exec_link_loop e (link :: links) s1) as Hloop
  end.
  cbv zeta in Hloop.
  destruct (exec h _ s1) as [[o s3] t3]. cbn [fst snd] in *.
  destruct Hloop as [-> Hloop]. split; [done|].
  cbn [app]. rewrite mutations_cons. cbn [ev_req is_mutation].
  rewrite Hloop. f_equal.
  apply list_filter_iff. intros [url name]. cbn [fst].
  by rewrite existing_hyperlinks_spec.
Qed.
End Hyperlinks.

(** ** [main] *)

Section Main.
Context {S : Type} (h : handler S).

(** The guards of [main] on the three directives repeat those of the
    reconcilers. *)
Lemma children_guard client card (children : list string) :
  match children with
  | _ :: _ => sync_child_items client card children
  | [] => Ret tt
  end = sync_child_items client card children.
Proof. by destruct children. Qed.

Lemma comment_guard client card (comment : option string) :
  match comment with
  | Some (String _ _ as comment) => sync_comment client card comment
  | _ => Ret tt
  end = sync_comment client card (default EmptyString comment).
Proof. by destruct comment as [[|c comment]|]. Qed.

Lemma links_guard client card (links : list (string * string)) :
  match links with
  | _ :: _ => sync_hyperlinks client card links
  | [] => Ret tt
  end = sync_hyperlinks client card links.
Proof. by destruct links. Qed.

(** The last block of [main]: a failed patch stops the run with status 1
    before any reconciler; after a patch that worked the three
    reconcilers run one after the other and the block returns. *)
Lemma sync_work_item_run client card text tags children comment links s :
  let q := UpdateWorkItem client card
             (description_patch_document text tags) in
  let r := exec h (sync_work_item client card text tags children comment
                     links) s in
  let rc := exec h (sync_child_items client card children) (h q s).2 in
  let rm := exec h (sync_comment client card (default EmptyString comment))
              rc.1.2 in
  let rl := exec h (sync_hyperlinks client card links) rm.1.2 in
  if (h q s).1 : bool
  then r = (Returned tt, rl.1.2, Ev q true :: rc.2 ++ rm.2 ++ rl.2)
  else r = (Exited 1, (h q s).2, [Ev q false]).
Proof.
  intros q r rc rm rl. subst r.
  unfold sync_work_item, update_work_item_description_and_tags.
  rewrite exec_bind, (exec_call h q). fold q.
  destruct (h q s) as [[|] s1] eqn:Hq; cbn [fst snd]; [|done].
  rewrite children_guard, comment_guard, links_guard.
  subst rc rm rl. cbn [fst snd].
  rewrite exec_bind.
  destruct (returns_exec h _ s1
              (proj2 (sync_child_items_kind client card children)))
    as [[] Hc].
  destruct (exec h (sync_child_items client card children) s1)
    as [[oc sc] tc]. cbn [fst snd] in *. subst oc.
  rewrite exec_bind.
  destruct (returns_exec h _ sc
              (proj2 (sync_comment_kind client card
                        (default EmptyString comment)))) as [[] Hm].
  destruct (exec h (sync_comment client card _) sc) as [[om sm] tm].
  cbn [fst snd] in *. subst om.
  destruct (returns_exec h _ sm
              (proj2 (sync_hyperlinks_kind client card links))) as [[] Hl].
  destruct (exec h (sync_hyperlinks client card links) sm) as [[ol sl] tl].
  cbn [fst snd] in *. by subst ol.
Qed.

(** A run of [main] either stops before it asks anything of Azure
    DevOps, or gets to its last block with a card number that is not 0
    and a description that is not empty. *)
Lemma main_with_run (P : parser) (args : arguments) (s : S) :
  let r := exec h (main_with P args) s in
  (Forall (λ q, is_ado q = false) (requests r.2)
   ∧ r.1.1 ≠ Returned tt)
  ∨ ∃ t0 s0 client card text,
      Forall (λ q, is_ado q = false) (requests t0)
      ∧ r = (let '(o, s2, t2) :=
               exec h (sync_work_item client card text (p_tags P text)
                         (p_children P text) (p_comment P text)
                         (p_links P text)) s0 in
             (o, s2, t0 ++ t2)).
Proof.
  intros r. subst r. unfold main_with. rewrite exec_bind.
  pose proof (issues_only_exec h _ _ s (get_pr_description_kind args)) as Ht.
  destruct (exec h (get_pr_description args) s) as [[[d|c|e] s1] t1];
    cbn [fst snd] in Ht; [|by left|by left].
  assert (Hleft : ∀ (o : outcome unit) t2,
    Forall (λ q, is_ado q = false) (requests t2) → o ≠ Returned tt →
    Forall (λ q, is_ado q = false) (requests (t1 ++ t2))
    ∧ o ≠ Returned tt).
  { intros o t2 H2 Ho. split; [|done].
    rewrite requests_app. by apply Forall_app. }
  destruct d as [[|c text]|]; [| |].
  1,3: left; simpl; destruct (h (Stderr _) s1) as [[] s2];
       apply Hleft; [by repeat constructor|done].
  destruct (p_card P (String c text)) as [[card|]|exc] eqn:Hcard;
    simpl; [| |left; by apply (Hleft _ [])].
  2: { left. destruct (h (Stderr _) s1) as [[] s2].
       destruct (h (Stderr _) s2) as [[] s3].
       apply Hleft; [by repeat constructor|done]. }
  destruct card as [|card|card]; simpl.
  { left. destruct (h (Stderr _) s1) as [[] s2].
    destruct (h (Stderr _) s2) as [[] s3].
    apply Hleft; [by repeat constructor|done]. }
  all: destruct (h ReadMetadata s1) as [[md|] s2]; simpl;
    [|left; destruct (h (Stderr _) s2) as [[] s3];
      apply Hleft; [by repeat constructor|done]].
  all: destruct (organization md) as [[|o org]|]; simpl;
    [left; destruct (h (Stderr _) s2) as [[] s3];
     apply Hleft; [by repeat constructor|done]| |
     left; destruct (h (Stderr _) s2) as [[] s3];
     apply Hleft; [by repeat constructor|done]].
  all: destruct (project md) as [[|p proj]|]; simpl;
    [left; destruct (h (Stderr _) s2) as [[] s3];
     apply Hleft; [by repeat constructor|done]| |
     left; destruct (h (Stderr _) s2) as [[] s3];
     apply Hleft; [by repeat constructor|done]].
  all: destruct (h (GetEnv _) s2) as [[[|x pat]|] s3]; simpl;
    [left; destruct (h (Stderr _) s3) as [[] s4];
     apply Hleft; [by repeat constructor|done]| |
     left; destruct (h (Stderr _) s3) as [[] s4];
     apply Hleft; [by repeat constructor|done]].
  all: right;
    exists (t1 ++ [Ev ReadMetadata (Some md);
                   Ev (GetEnv (default "ADO_PAT" (pat_env_var md)))
                      (Some (String x pat))]), s3,
           (Client (String o org) (String p proj) (String x pat));
    match type of Hcard with _ = Value (Some ?cd) => exists cd end;
    exists (String c text).
  all: split;
    [rewrite requests_app; apply Forall_app; split;
       [done|unfold requests; simpl; by repeat constructor]|].
  all: simpl;
    destruct (h (UpdateWorkItem _ _ _) s3) as [ok s4];
    destruct (exec h _ s4) as [[o' s5] t5];
    by rewrite <- app_assoc.
Qed.
End Main.

(** An element with a property that no other element of the list has is
    at one place only. *)
Lemma split_at_unique {A : Type} (P : A → Prop) (l1 l2 l1' l2' : list A)
    (a a' : A) :
  l1 ++ a :: l2 = l1' ++ a' :: l2' →
  P a → Forall (λ x, ¬ P x) l1' → Forall (λ x, ¬ P x) l2' →
  l1 = l1' ∧ a = a' ∧ l2 = l2'.
Proof.
  intros H Ha H1 H2. revert l1 H.
  induction H1 as [|y l1' Hy _ IH]; intros l1 H.
  - destruct l1 as [|x l1]; simpl in H.
    + by inversion H.
    + inversion H; subst. apply Forall_app in H2 as [_ H2].
      by inversion H2.
  - destruct l1 as [|x l1]; simpl in H.
    + inversion H; subst. done.
    + inversion H; subst. destruct (IH l1) as (-> & -> & ->); done.
Qed.

Lemma description_patch_document_is client card text tags :
  is_description_patch
    (UpdateWorkItem client card (description_patch_document text tags)).
Proof. by destruct tags. Qed.

Lemma not_description_patch_weaken (P : request → Prop) (t : list event) :
  (∀ q, P q → ¬ is_description_patch q) →
  Forall P (requests t) →
  Forall (λ e, ¬ is_description_patch (ev_req e)) t.
Proof.
  intros HP. unfold requests. rewrite Forall_fmap.
  intros Ht. eapply Forall_impl; [exact Ht|]. intros e. apply HP.
Qed.

Lemma non_ado_not_description_patch q :
  is_ado q = false → ¬ is_description_patch q.
Proof. destruct q; cbn; intros H1 H2; done. Qed.

Lemma child_request_not_description_patch q :
  child_request q → ¬ is_description_patch q.
Proof. destruct q; cbn; intros H1 H2; done. Qed.

Lemma comment_request_not_description_patch q :
  comment_request q → ¬ is_description_patch q.
Proof. destruct q; cbn; intros H1 H2; done. Qed.

Lemma hyperlink_request_not_description_patch q :
  hyperlink_request q → ¬ is_description_patch q.
Proof.
  destruct q; cbn; try (intros H1 H2; done).
  intros H1 H2.
  repeat match goal with
         | H : match ?x with _ => _ end |- _ => destruct x; try done
         end.
Qed.

Section Fatal.
Context {S : Type} (h : handler S).

(** The patch of the description and the tags in a run of [main]: when
    it fails the run stops with status 1 and asks nothing more; when it
    works the run goes to its end, through the three reconcilers. *)
Lemma main_with_patch_answer (P : parser) (args : arguments)
    (s : S) :
  let r := exec h (main_with P args) s in
  ∀ before after client card doc (ok : bool),
    r.2 = before ++ Ev (UpdateWorkItem client card doc) ok :: after →
    is_description_patch (UpdateWorkItem client card doc) →
    if ok then
      r.1.1 = Returned tt
      ∧ ∃ text s1,
          let rc := exec h (sync_child_items client card
                              (p_children P text)) s1 in
          let rm := exec h (sync_comment client card
                              (default EmptyString (p_comment P text)))
                      rc.1.2 in
          let rl := exec h (sync_hyperlinks client card (p_links P text))
                      rm.1.2 in
          doc = description_patch_document text (p_tags P text)
          ∧ after = rc.2 ++ rm.2 ++ rl.2
    else r.1.1 = Exited 1 ∧ after = [].
Proof.
  intros r before after client card doc ok Ht Hdoc.
  destruct (main_with_run h P args s)
    as [[Hno _]|(t0 & s0 & client' & card' & text & Ht0 & Hr)];
    fold r in Hno || fold r in Hr.
  { rewrite Ht, requests_app, Forall_app in Hno.
    destruct Hno as [_ Hno]. by inversion Hno. }
  pose proof (sync_work_item_run h client' card' text (p_tags P text)
                (p_children P text) (p_comment P text) (p_links P text) s0)
    as Hsync.
  cbv zeta in Hsync.
  set (q := UpdateWorkItem client' card'
              (description_patch_document text (p_tags P text))) in *.
  destruct (h q s0) as [b s1] eqn:Hq. cbn [fst snd] in Hsync.
  set (rc := exec h (sync_child_items client' card' (p_children P text)) s1)
    in *.
  set (rm := exec h (sync_comment client' card'
                       (default EmptyString (p_comment P text))) rc.1.2)
    in *.
  set (rl := exec h (sync_hyperlinks client' card' (p_links P text)) rm.1.2)
    in *.
  assert (Hrest : Forall (λ e, ¬ is_description_patch (ev_req e))
                    (rc.2 ++ rm.2 ++ rl.2)).
  { rewrite !Forall_app. split_and!.
    - eapply not_description_patch_weaken;
        [apply child_request_not_description_patch|].
      apply issues_only_exec, sync_child_items_kind.
    - eapply not_description_patch_weaken;
        [apply comment_request_not_description_patch|].
      apply issues_only_exec, sync_comment_kind.
    - eapply not_description_patch_weaken;
        [apply hyperlink_request_not_description_patch|].
      apply issues_only_exec, sync_hyperlinks_kind. }
  assert (H0 : Forall (λ e, ¬ is_description_patch (ev_req e)) t0).
  { eapply not_description_patch_weaken;
      [apply non_ado_not_description_patch|done]. }
  destruct b.
  - rewrite Hsync in Hr. rewrite Hr in Ht. cbn [snd] in Ht.
    symmetry in Ht.
    apply (split_at_unique (λ e, is_description_patch (ev_req e)))
      in Ht as (-> & He & ->); [|done|done|done].
    pose proof (f_equal update_answer He) as Hok. cbn in Hok. subst ok.
    pose proof (f_equal ev_req He) as Hreq. cbn in Hreq.
    unfold q in Hreq. inversion Hreq; subst.
    split; [by rewrite Hr|]. by exists text, s1.
  - rewrite Hsync in Hr. rewrite Hr in Ht. cbn [snd] in Ht.
    symmetry in Ht.
    apply (split_at_unique (λ e, is_description_patch (ev_req e)))
      in Ht as (-> & He & ->); [|done|done|done].
    pose proof (f_equal update_answer He) as Hok. cbn in Hok. subst ok.
    by rewrite Hr.
Qed.
End Fatal.

Section Stops.
Context {S : Type} (h : handler S).

(** What [main] does once it has the PR description [d]: the two ways
    it stops before it loads its configuration. *)
Lemma main_with_empty_description (P : parser) (args : arguments)
    (d : option string) (s s1 : S) (t1 : list event) :
  exec h (get_pr_description args) s = (Returned d, s1, t1) →
  truthy_str d = false →
  exec h (main_with P args) s =
    (Exited 1, (h (Stderr "Error: PR description is empty") s1).2,
     t1 ++ [Ev (Stderr "Error: PR description is empty") tt]).
Proof.
  intros Hd Hempty. unfold main_with. rewrite exec_bind, Hd.
  destruct d as [[|c text]|]; [|done|]; simpl;
    by destruct (h (Stderr _) s1) as [[] s2].
Qed.

Lemma main_with_no_card (P : parser) (args : arguments)
    (c : ascii) (text : string) (s s1 : S) (t1 : list event) :
  exec h (get_pr_description args) s
    = (Returned (Some (String c text)), s1, t1) →
  p_card P (String c text) = Value None
  ∨ p_card P (String c text) = Value (Some 0) →
  let line1 := "No ADO Card number found in PR description" in
  let line2 := "Expected format: 'ADO Card: <number>'" in
  exec h (main_with P args) s =
    (Exited 1, (h (Stderr line2) (h (Stderr line1) s1).2).2,
     t1 ++ [Ev (Stderr line1) tt; Ev (Stderr line2) tt]).
Proof.
  intros Hd Hcard. unfold main_with. rewrite exec_bind, Hd.
  destruct Hcard as [-> | ->]; simpl;
    destruct (h (Stderr _) s1) as [[] s2]; simpl;
    by destruct (h (Stderr _) s2) as [[] s3].
Qed.
End Stops.

Lemma requests_get_pr_description {S : Type} (h : handler S) args s :
  Forall (λ q, is_ado q = false)
         (requests (exec h (get_pr_description args) s).2).
Proof. apply issues_only_exec, get_pr_description_kind. Qed.

(** When the PR description that [get_pr_description] returns is empty
    (the empty string, or no body at all), [main] stops with exit status
    1 after the line [Error: PR description is empty] on the standard
    error. It has then asked nothing of Azure DevOps, and this holds
    whatever the five extractors are: none of them is consulted. *)
Lemma empty_description_is_reported {S : Type} (h : handler S) (P : parser)
    (args : arguments) (d : option string) (s s1 : S) (t1 : list event) :
  exec h (get_pr_description args) s = (Returned d, s1, t1) →
  truthy_str d = false →
  let r := exec h (main_with P args) s in
  r.1.1 = Exited 1
  ∧ requests r.2 = requests t1 ++ [Stderr "Error: PR description is empty"]
  ∧ Forall (λ q, is_ado q = false) (requests r.2)
  ∧ mutations r.2 = [].
Proof.
  intros Hd Hempty r. subst r.
  rewrite (main_with_empty_description h P args d s s1 t1 Hd Hempty).
  cbn [fst snd].
  assert (Hno : Forall (λ q, is_ado q = false)
    (requests (t1 ++ [Ev (Stderr "Error: PR description is empty") tt]))).
  { rewrite requests_app. apply Forall_app. split.
    - pose proof (requests_get_pr_description h args s) as H.
      by rewrite Hd in H.
    - by repeat constructor. }
  split_and!; [done|by rewrite requests_app|done|by apply mutations_no_ado].
Qed.

(** C8. For every text in which the pattern of the card number,
    [ADO\s*Card\s*:\s*(\d+)] case-insensitively (the
    [ADO Card: <number>] of the docstring), matches nowhere,
    [extract_ado_card_number] gives [None]; and a run of [main] on that
    text stops with exit status 1 without asking anything of Azure DevOps,
    so without any mutation, whatever the four other extractors are: none
    of them is consulted. When the text is not empty the run reports the
    missing card number. *)
Theorem missing_card_stops (text : string) :
  ¬ occurs IGNORECASE card_pattern text →
  extract_ado_card_number text = Value None
  ∧ ∀ {S : Type} (h : handler S) tags children comment links
      (args : arguments) (s s1 : S) (t1 : list event),
      exec h (get_pr_description args) s = (Returned (Some text), s1, t1) →
      let P := Parser extract_ado_card_number tags children comment links in
      let r := exec h (main_with P args) s in
      r.1.1 = Exited 1
      ∧ Forall (λ q, is_ado q = false) (requests r.2)
      ∧ mutations r.2 = []
      ∧ (text ≠ EmptyString →
         requests r.2 =
           requests t1 ++ [Stderr "No ADO Card number found in PR description";
                           Stderr "Expected format: 'ADO Card: <number>'"]).
Proof.
  intros Hno. apply extract_ado_card_number_none in Hno. split; [done|].
  intros S h tags children comment links args s s1 t1 Hd P r.
  pose proof (requests_get_pr_description h args s) as Ht1.
  rewrite Hd in Ht1. cbn [snd] in Ht1.
  destruct text as [|c text].
  - destruct (empty_description_is_reported h P args _ s s1 t1 Hd eq_refl)
      as (H1 & H2 & H3 & H4).
    by split_and!.
  - subst r.
    rewrite (main_with_no_card h P args c text s s1 t1 Hd (or_introl Hno)).
    cbn [fst snd].
    assert (Hall : Forall (λ q, is_ado q = false)
      (requests (t1 ++ [Ev (Stderr "No ADO Card number found in PR description") tt;
                        Ev (Stderr "Expected format: 'ADO Card: <number>'") tt]))).
    { rewrite requests_app. apply Forall_app. split; [done|].
      by repeat constructor. }
    split_and!; [done|done|by apply mutations_no_ado|].
    intros _. by rewrite requests_app.
Qed.

(** C9. When the first match of the card pattern reads as the integer 0,
    the run of [main] is the run of [main] with a parser that finds no
    card at all: the same outcome, the same final state and the same
    requests. It reports the missing card number on the standard error,
    stops with exit status 1 and attempts no mutation. *)
Theorem card_zero_is_missing {S : Type} (h : handler S) (args : arguments)
    (text : string) (s s1 : S) (t1 : list event) :
  exec h (get_pr_description args) s = (Returned (Some text), s1, t1) →
  extract_ado_card_number text = Value (Some 0) →
  let r := exec h (main args) s in
  r = exec h (main_with (without_card directive_parser) args) s
  ∧ r.1.1 = Exited 1
  ∧ requests r.2 =
      requests t1 ++ [Stderr "No ADO Card number found in PR description";
                      Stderr "Expected format: 'ADO Card: <number>'"]
  ∧ mutations r.2 = [].
Proof.
  intros Hd Hzero r. subst r. unfold main.
  destruct text as [|c text]; [done|].
  rewrite (main_with_no_card h directive_parser args c text s s1 t1 Hd
             (or_intror Hzero)).
  rewrite (main_with_no_card h (without_card directive_parser) args c text
             s s1 t1 Hd (or_introl eq_refl)).
  cbn [fst snd]. split_and!; [done|done|by rewrite requests_app|].
  apply mutations_no_ado. rewrite requests_app. apply Forall_app. split.
  - pose proof (requests_get_pr_description h args s) as H.
    by rewrite Hd in H.
  - by repeat constructor.
Qed.

(** C6. For a comment text that is not empty, the comment reconciler
    composes the marker, a newline and the text. It reads the comments;
    when some comment carries the marker as a substring of its body, its
    only other request overwrites the first such comment with the composed
    text, and nothing is created; when no comment carries the marker, its
    only other request adds one comment with the composed text. With no
    comment text it asks nothing at all. *)
Theorem sync_comment_updates_first_marked_or_adds {S : Type} (h : handler S)
    (client : AdoClient) (work_item_id : Z) :
  (∀ (comment_text : string) (comments : list comment) (s s1 : S),
     comment_text ≠ EmptyString →
     h (GetComments client work_item_id) s = (comments, s1) →
     let full_comment := COMMENT_MARKER +:+ nl +:+ comment_text in
     let r := exec h (sync_comment client work_item_id comment_text) s in
     r.1.1 = Returned tt
     ∧ (∀ before c after,
          comments = before ++ c :: after →
          Forall (λ c', ¬ marked c') before → marked c →
          requests r.2 =
            [GetComments client work_item_id;
             UpdateComment client work_item_id (c_id c) full_comment])
     ∧ (Forall (λ c', ¬ marked c') comments →
        requests r.2 =
          [GetComments client work_item_id;
           AddComment client work_item_id full_comment]))
  ∧ (∀ s : S,
       exec h (sync_comment client work_item_id EmptyString) s
       = (Returned tt, s, [])).
Proof.
  split; [|done].
  intros text comments s s1 Htext Hget full r. subst r.
  unfold sync_comment. destruct text as [|x text]; [done|]. cbn [Py.truthy negb].
  rewrite exec_bind, (exec_call h (GetComments client work_item_id)), Hget.
  cbn [fst snd]. fold full.
  set (scan := fix scan (comments : list comment) : prog unit := _).
  assert (Hscan : ∀ comments s1,
    let r := exec h (scan comments) s1 in
    r.1.1 = Returned tt
    ∧ (∀ before c after,
         comments = before ++ c :: after →
         Forall (λ c', ¬ marked c') before → marked c →
         requests r.2 = [UpdateComment client work_item_id (c_id c) full])
    ∧ (Forall (λ c', ¬ marked c') comments →
       requests r.2 = [AddComment client work_item_id full])).
  { clear. intros comments. induction comments as [|c cs IH]; intros s1.
    - simpl. destruct (h (AddComment _ _ _) s1) as [a s2]. simpl.
      split_and!; [done| |done].
      intros before c after H. by destruct before.
    - cbn [scan]. fold scan.
      destruct (Py.contains COMMENT_MARKER (default EmptyString (c_text c)))
        eqn:Hc.
      + apply contains_spec in Hc. simpl.
        destruct (h (UpdateComment _ _ _ _) s1) as [a s2]. simpl.
        split_and!; [done| |].
        * intros before c' after H Hb Hc'.
          destruct before as [|b before].
          -- by inversion H.
          -- inversion H; subst. by inversion Hb.
        * intros H. by inversion H.
      + assert (Hc' : ¬ marked c).
        { intros H. apply contains_spec in H. unfold marked in *. congruence. }
        destruct (IH s1) as (H1 & H2 & H3). split_and!; [done| |].
        * intros before c' after H Hb Hm.
          destruct before as [|b before].
          -- inversion H; subst. done.
          -- inversion H; subst. inversion Hb; subst. by eapply H2.
        * intros H. inversion H; subst. by apply H3. }
  destruct (Hscan comments s1) as (H1 & H2 & H3).
  destruct (exec h (scan comments) s1) as [[o s2] t2]. cbn [fst snd] in *.
  split_and!; [done| |].
  - intros before c after H Hb Hc. cbn. f_equal. by eapply H2.
  - intros H. cbn. f_equal. by apply H3.
Qed.

Import Scenario.

(** C3. The end-to-end scenario: [main] on the description [ship_it]
    against the empty work item 42 goes to its end; the requests that
    change something are exactly one patch that replaces the description
    by the whole text and the tags by [bug; urgent], then the creation of
    the task [write tests] and of the task [update docs], both linked to
    42. There is no comment and no hyperlink mutation. *)
Theorem ship_it_scenario :
  let r := exec Remote.handle (main (direct ship_it)) empty_card in
  r.1.1 = Returned tt
  ∧ mutations r.2 =
      [UpdateWorkItem client 42
         [PatchOp "replace" "/fields/System.Description"
            (Some (JStr ship_it));
          PatchOp "replace" "/fields/System.Tags" (Some (JStr "bug; urgent"))];
       CreateWorkItem client "Task"
         [PatchOp "add" "/fields/System.Title" (Some (JStr "write tests"));
          PatchOp "add" "/relations/-"
            (Some (JRel "System.LinkTypes.Hierarchy-Reverse"
                     "https://dev.azure.com/contoso/web/_apis/wit/workitems/42"
                     None))];
       CreateWorkItem client "Task"
         [PatchOp "add" "/fields/System.Title" (Some (JStr "update docs"));
          PatchOp "add" "/relations/-"
            (Some (JRel "System.LinkTypes.Hierarchy-Reverse"
                     "https://dev.azure.com/contoso/web/_apis/wit/workitems/42"
                     None))]].
Proof. vm_compute. split; reflexivity. Qed.

(** C1, on the input where the code departs from it. One run of [main]
    on a description that asks for the children [Task] and [task] and
    twice for the link [https://x], against the empty work item 42,
    leaves 42 with two children whose titles are equal
    case-insensitively, and with two hyperlinks of the same URL. *)
Theorem duplicates_within_one_request :
  let s := (exec Remote.handle (main (direct twice)) empty_card).1.2 in
  Remote.child_titles client 42 s = ["Task"; "task"]
  ∧ same_title "Task" "task"
  ∧ Remote.hyperlink_urls 42 s = ["https://x"; "https://x"].
Proof. vm_compute. split_and!; reflexivity. Qed.

(** C2, on the input where the code departs from it. When the line
    [ADO Tags:] has nothing on it and another line follows, the white
    space after the colon takes in the end of the line, and the parser
    gives the next line as the one tag: the patch replaces the tags
    instead of removing them. The reconciler itself does remove the tags
    field whenever the list of tags is empty. *)
Theorem empty_tags_line_takes_next_line :
  extract_tags no_tags = ["ADO Children:"]
  ∧ (∀ description,
       description_patch_document description []
       = [PatchOp "replace" "/fields/System.Description"
            (Some (JStr description));
          PatchOp "remove" "/fields/System.Tags" None])
  ∧ head (mutations (exec Remote.handle (main (direct no_tags)) empty_card).2)
    = Some (UpdateWorkItem client 42
              [PatchOp "replace" "/fields/System.Description"
                 (Some (JStr no_tags));
               PatchOp "replace" "/fields/System.Tags"
                 (Some (JStr "ADO Children:"))]).
Proof. split_and!; [by vm_compute|done|by vm_compute]. Qed.

(** C10. The empty string given as [--pr-description] is taken for no
    description at all. The run of [main] does not stop on it with the
    line [Error: PR description is empty]: it reads [GITHUB_TOKEN] and
    asks GitHub for the pull request of no repository and no number, and
    against a GitHub that answers 404 it stops with status 1 on the
    error of the fetch. The line is printed, with status 1, on the other
    path, when the description fetched for [--pr-number 7] is empty. *)
Theorem empty_pr_description_goes_to_github :
  let r := exec Remote.handle (main (direct EmptyString)) empty_card in
  let r7 := exec Remote.handle (main pull_7)
              (remote (200, Some EmptyString) [WorkItem 42 ∅ []] []) in
  r.1.1 = Exited 1
  ∧ requests r.2
    = [GetEnv "GITHUB_TOKEN";
       GithubGetPull None None None;
       Stderr "Error fetching PR from GitHub: 404"]
  ∧ r7.1.1 = Exited 1
  ∧ requests r7.2
    = [GetEnv "GITHUB_TOKEN";
       GithubGetPull (Some "contoso/web") (Some 7) None;
       Stderr "Error: PR description is empty"].
Proof. by vm_compute. Qed.

(** C4. When the environment shows the reconciler the children [children]
    of the work item and the work item itself, the creations that
    [sync_child_items] asks for are those of the requested titles that no
    existing child has, case-insensitively, in the order of the request:
    a title is skipped exactly when some existing child has it. The title
    of a new child is the requested title as it is written; the child is
    linked to its parent, and carries the area path and the iteration
    path of the parent whenever they are not empty. *)
Theorem sync_child_items_creates_the_missing {S : Type} (h : handler S)
    (client : AdoClient) (parent_id : Z) (children : list work_item)
    (parent : work_item) (titles : list string) (s s1 s2 : S) :
  shows_children h client parent_id children s s1 →
  h (GetWorkItem client parent_id) s1 = (Some parent, s2) →
  let area_path :=
    default EmptyString (wi_fields parent !! "System.AreaPath") in
  let iteration_path :=
    default EmptyString (wi_fields parent !! "System.IterationPath") in
  mutations (exec h (sync_child_items client parent_id titles) s).2 =
    create_child client parent_id area_path iteration_path
      <$> filter (λ title, ¬ has_child_titled children title) titles
  ∧ ∀ title,
      let doc :=
        child_patch_document client parent_id area_path iteration_path
          title in
      PatchOp "add" "/fields/System.Title" (Some (JStr title)) ∈ doc
      ∧ PatchOp "add" "/relations/-"
          (Some (JRel "System.LinkTypes.Hierarchy-Reverse"
                   (base_url client +:+ "/wit/workitems/"
                      +:+ pretty parent_id) None)) ∈ doc
      ∧ (area_path ≠ EmptyString →
         PatchOp "add" "/fields/System.AreaPath" (Some (JStr area_path))
           ∈ doc)
      ∧ (iteration_path ≠ EmptyString →
         PatchOp "add" "/fields/System.IterationPath"
           (Some (JStr iteration_path)) ∈ doc).
Proof.
  intros Hshow Hparent area_path iteration_path. split.
  - by destruct (sync_child_items_mutations h client parent_id children
                   parent titles s s1 s2 Hshow Hparent).
  - intros title. apply child_patch_document_spec.
Qed.

(** The request that adds a hyperlink, written out: one operation that
    adds a relation of kind [Hyperlink] to the URL, with the name as its
    comment. *)
Lemma add_hyperlink_request (client : AdoClient) (work_item_id : Z)
    (link : string * string) :
  add_hyperlink client work_item_id link
  = UpdateWorkItem client work_item_id
      [PatchOp "add" "/relations/-"
         (Some (JRel "Hyperlink" link.1 (Some link.2)))].
Proof. reflexivity. Qed.

(** C5. When the environment shows the reconciler the work item, the
    additions that [sync_hyperlinks] asks for are those of the requested
    pairs whose URL is not among the URLs of the hyperlink relations of
    the work item, in the order of the request: a pair is skipped exactly
    when its URL is there already, and the label of the relation plays no
    part. Each addition is one update of the work item whose document is
    the single operation that adds, at [/relations/-], a relation of kind
    [Hyperlink] to the requested URL with the requested name as its
    comment. So [https://x] under the name [NameA] adds nothing when
    [https://x] is there under the name [NameB]. *)
Theorem sync_hyperlinks_skips_known_urls {S : Type} (h : handler S)
    (client : AdoClient) (work_item_id : Z) (item : work_item)
    (s s1 : S) :
  h (GetWorkItem client work_item_id) s = (Some item, s1) →
  (∀ links,
     mutations (exec h (sync_hyperlinks client work_item_id links) s).2 =
       (λ link, UpdateWorkItem client work_item_id
                  [PatchOp "add" "/relations/-"
                     (Some (JRel "Hyperlink" link.1 (Some link.2)))])
         <$> filter (λ link, link.1 ∉ hyperlink_urls item) links)
  ∧ (Relation (Some "Hyperlink") (Some "https://x") (Some "NameB")
       ∈ wi_relations item →
     mutations (exec h (sync_hyperlinks client work_item_id
                          [("https://x", "NameA")]) s).2 = []).
Proof.
  intros Hitem.
  assert (Hall : ∀ links,
    mutations (exec h (sync_hyperlinks client work_item_id links) s).2 =
      (λ link, UpdateWorkItem client work_item_id
                 [PatchOp "add" "/relations/-"
                    (Some (JRel "Hyperlink" link.1 (Some link.2)))])
        <$> filter (λ link, link.1 ∉ hyperlink_urls item) links).
  { intros links.
    destruct (sync_hyperlinks_mutations h client work_item_id item links
                s s1 Hitem) as [_ ->].
    apply list_fmap_ext. intros _ link _. apply add_hyperlink_request. }
  split; [done|]. intros Hrel. rewrite Hall.
  rewrite filter_cons, decide_False; [done|]. cbn [fst].
  intros Hnot. apply Hnot. unfold hyperlink_urls.
  apply list_elem_of_omap. eexists. split; [exact Hrel|done].
Qed.

(** C7. In every run of [main], in every environment: when the patch of
    the description and the tags is answered by a failure, the run stops
    with exit status 1 and asks nothing after it, so that no reconciler
    runs. When it is answered by a success, the run goes to its end with
    exit status 0, and what it asks after the patch is a run of the child
    reconciler, then of the comment reconciler, then of the hyperlink
    reconciler, whatever these requests are answered. Each reconciler
    goes to its end whatever it is answered, and the creations of the
    children and the additions of the links do not depend on how the
    earlier ones were answered. *)
Theorem only_the_description_patch_is_fatal {S : Type} (h : handler S) :
  (∀ (P : parser) (args : arguments) (s : S),
     let r := exec h (main_with P args) s in
     ∀ before after client card doc (ok : bool),
       r.2 = before ++ Ev (UpdateWorkItem client card doc) ok :: after →
       is_description_patch (UpdateWorkItem client card doc) →
       if ok then
         exit_code r.1.1 = 0
         ∧ ∃ text s1,
             let rc := exec h (sync_child_items client card
                                 (p_children P text)) s1 in
             let rm := exec h (sync_comment client card
                                 (default EmptyString (p_comment P text)))
                         rc.1.2 in
             let rl := exec h (sync_hyperlinks client card (p_links P text))
                         rm.1.2 in
             doc = description_patch_document text (p_tags P text)
             ∧ after = rc.2 ++ rm.2 ++ rl.2
       else exit_code r.1.1 = 1 ∧ r.1.1 = Exited 1 ∧ after = [])
  ∧ (∀ client card titles text links (s : S),
       (exec h (sync_child_items client card titles) s).1.1 = Returned tt
       ∧ (exec h (sync_comment client card text) s).1.1 = Returned tt
       ∧ (exec h (sync_hyperlinks client card links) s).1.1 = Returned tt)
  ∧ (∀ client card children parent titles (s s1 s2 : S),
       shows_children h client card children s s1 →
       h (GetWorkItem client card) s1 = (Some parent, s2) →
       mutations (exec h (sync_child_items client card titles) s).2 =
         create_child client card
           (default EmptyString (wi_fields parent !! "System.AreaPath"))
           (default EmptyString (wi_fields parent !! "System.IterationPath"))
           <$> filter (λ title, ¬ has_child_titled children title) titles)
  ∧ (∀ client card item links (s s1 : S),
       h (GetWorkItem client card) s = (Some item, s1) →
       mutations (exec h (sync_hyperlinks client card links) s).2 =
         add_hyperlink client card
           <$> filter (λ link, link.1 ∉ hyperlink_urls item) links).
Proof.
  split_and!.
  - intros P args s r before after client card doc ok Ht Hdoc.
    pose proof (main_with_patch_answer h P args s before after client card
                  doc ok Ht Hdoc) as H.
    destruct ok.
    + destruct H as [Hr H]. fold r in Hr. by rewrite Hr.
    + destruct H as [Hr H]. fold r in Hr. by rewrite Hr.
  - intros client card titles text links s. split_and!.
    + destruct (returns_exec h _ s
                  (proj2 (sync_child_items_kind client card titles)))
        as [[] H]; exact H.
    + destruct (returns_exec h _ s
                  (proj2 (sync_comment_kind client card text)))
        as [[] H]; exact H.
    + destruct (returns_exec h _ s
                  (proj2 (sync_hyperlinks_kind client card links)))
        as [[] H]; exact H.
  - intros client card children parent titles s s1 s2 Hshow Hparent.
    by destruct (sync_child_items_mutations h client card children parent
                   titles s s1 s2 Hshow Hparent).
  - intros client card item links s s1 Hitem.
    by destruct (sync_hyperlinks_mutations h client card item links s s1
                   Hitem).
Qed.

(** ** The statements at concrete inputs *)

(** The pattern of the card number matches nowhere in a text in which
    [extract_ado_card_number] finds nothing. *)
Lemma no_card_in_plain_text :
  ¬ occurs IGNORECASE card_pattern "Fix the build, no card".
Proof. apply extract_ado_card_number_none. by vm_compute. Qed.

Lemma marker_not_in_remark : ¬ marked (Comment 7 (Some "a remark")).
Proof.
  intros H. apply contains_spec in H. by vm_compute in H.
Qed.

Lemma marker_in_tool_comment :
  marked (Comment 8 (Some ("<!-- ado-sync-comment -->" +:+ nl +:+ "old"))).
Proof. apply contains_spec. by vm_compute. Qed.

Lemma populated_shows_child_43 :
  shows_children Remote.handle client 42 [child_43] populated populated.
Proof.
  exists [WiqlRow (Some 42); WiqlRow (Some 43)], populated.
  split; by vm_compute.
Qed.

(** Against the work item 42 with the child [ADD TESTS], the request for
    [Add tests] and [Write docs] creates [Write docs] only. *)
Lemma sync_child_items_creates_the_missing_witness :
  Remote.handle (GetWorkItem client 42) populated = (Some card_42, populated)
  ∧ mutations (exec Remote.handle
                 (sync_child_items client 42 ["Add tests"; "Write docs"])
                 populated).2
    = [create_child client 42 "Web" "Sprint 1" "Write docs"].
Proof.
  split; [by vm_compute|].
  rewrite (proj1 (sync_child_items_creates_the_missing Remote.handle client 42
                    [child_43] card_42 ["Add tests"; "Write docs"]
                    populated populated populated
                    populated_shows_child_43 eq_refl)).
  by vm_compute.
Defined.

(** Against the work item 42 with the hyperlink [https://x], the request
    for [https://x] under another name and for [https://y] adds
    [https://y] only. *)
Lemma sync_hyperlinks_skips_known_urls_witness :
  Remote.handle (GetWorkItem client 42) populated = (Some card_42, populated)
  ∧ mutations (exec Remote.handle
                 (sync_hyperlinks client 42
                    [("https://x", "NameA"); ("https://y", "Docs")])
                 populated).2
    = [UpdateWorkItem client 42
         [PatchOp "add" "/relations/-"
            (Some (JRel "Hyperlink" "https://y" (Some "Docs")))]]
  ∧ mutations (exec Remote.handle
                 (sync_hyperlinks client 42 [("https://x", "NameA")])
                 populated).2 = [].
Proof.
  pose proof (sync_hyperlinks_skips_known_urls Remote.handle client 42
                card_42 populated populated eq_refl) as [Hall Hx].
  split_and!.
  - by vm_compute.
  - rewrite Hall. by vm_compute.
  - apply Hx. by left.
Defined.

(** Against the comments of 42, of which the second is the tool's, the
    comment [new] overwrites the comment 8. *)
Lemma sync_comment_updates_first_marked_or_adds_witness :
  requests (exec Remote.handle (sync_comment client 42 "new") populated).2
  = [GetComments client 42;
     UpdateComment client 42 8 (COMMENT_MARKER +:+ nl +:+ "new")].
Proof.
  pose proof (proj1 (sync_comment_updates_first_marked_or_adds
                       Remote.handle client 42)
                "new"
                [Comment 7 (Some "a remark");
                 Comment 8 (Some ("<!-- ado-sync-comment -->" +:+ nl
                                    +:+ "old"))]
                populated populated
                ltac:(done) eq_refl) as (_ & Hupdate & _).
  apply (Hupdate [Comment 7 (Some "a remark")] _ [] eq_refl).
  - constructor; [apply marker_not_in_remark|constructor].
  - apply marker_in_tool_comment.
Defined.

(** Where there is no work item 42 the patch fails: the run stops with
    status 1 and nothing follows the patch. *)
Lemma only_the_description_patch_is_fatal_witness :
  let r := exec Remote.handle (main (direct ship_it))
             (remote (404, None) [] []) in
  exit_code r.1.1 = 1 ∧ r.1.1 = Exited 1.
Proof.
  intros r.
  pose proof (proj1 (only_the_description_patch_is_fatal Remote.handle)
                directive_parser (direct ship_it) (remote (404, None) [] [])
                [Ev ReadMetadata
                    (Some (Metadata (Some "contoso") (Some "web") None));
                 Ev (GetEnv "ADO_PAT") (Some "pat")]
                [] client 42
                (description_patch_document ship_it ["bug"; "urgent"])
                false ltac:(by vm_compute) I) as (H1 & H2 & _).
  by split.
Defined.

Lemma missing_card_stops_witness :
  let r := exec Remote.handle (main (direct "Fix the build, no card"))
             empty_card in
  r.1.1 = Exited 1 ∧ mutations r.2 = [].
Proof.
  intros r.
  pose proof (proj2 (missing_card_stops "Fix the build, no card"
                       no_card_in_plain_text)
                Remote.state Remote.handle extract_tags extract_children
                extract_comment extract_links
                (direct "Fix the build, no card") empty_card empty_card []
                eq_refl) as (H1 & _ & H3 & _).
  by split.
Defined.

Lemma card_zero_is_missing_witness :
  let r := exec Remote.handle (main (direct "ADO Card: 0")) empty_card in
  extract_ado_card_number "ADO Card: 0" = Value (Some 0)
  ∧ r.1.1 = Exited 1
  ∧ requests r.2 = [Stderr "No ADO Card number found in PR description";
                    Stderr "Expected format: 'ADO Card: <number>'"].
Proof.
  intros r.
  pose proof (card_zero_is_missing Remote.handle (direct "ADO Card: 0")
                "ADO Card: 0" empty_card empty_card [] eq_refl
                ltac:(by vm_compute)) as (_ & H1 & H2 & _).
  split_and!; [by vm_compute|done|done].
Defined.

(** * Further properties

    What the parser returns, which match it takes, what the reconcilers
    do when a read fails, and the phases of [main]. *)

(** ** More on strings *)

Lemma lstrip_stops (s : string) : stops Py.isspace (Py.lstrip s) = true.
Proof.
  induction s as [|c s IH]; [done|]. simpl.
  destruct (Py.isspace c) eqn:E; [done|]. simpl. by rewrite E.
Qed.

Lemma lstrip_id (s : string) : stops Py.isspace s = true → Py.lstrip s = s.
Proof. destruct s as [|c s]; [done|]. simpl. by destruct (Py.isspace c). Qed.

Lemma rstrip_stops (s : string) :
  stops Py.isspace s = true → stops Py.isspace (Py.rstrip s) = true.
Proof.
  destruct s as [|c s]; [done|]. unfold stops at 1. cbn [Py.rstrip].
  intros Hc. destruct (Py.rstrip s); [|exact Hc].
  destruct (Py.isspace c) eqn:E; [done|]. unfold stops. by rewrite E.
Qed.

Lemma rstrip_idemp (s : string) : Py.rstrip (Py.rstrip s) = Py.rstrip s.
Proof.
  induction s as [|c s IH]; [done|]. simpl.
  destruct (Py.rstrip s) as [|d t] eqn:E.
  - destruct (Py.isspace c) eqn:Ec; [done|]. simpl. by rewrite Ec.
  - simpl in *. rewrite IH. done.
Qed.

(** [strip] gives a string without white space at its ends. *)
Lemma strip_trimmed (s : string) : trimmed (Py.strip s).
Proof.
  unfold trimmed, Py.strip.
  rewrite (lstrip_id (Py.rstrip (Py.lstrip s))).
  - apply rstrip_idemp.
  - apply rstrip_stops, lstrip_stops.
Qed.

Lemma has_char_lstrip c s :
  Py.has_char c s = false → Py.has_char c (Py.lstrip s) = false.
Proof.
  induction s as [|x s IH]; [done|]. simpl.
  destruct (Py.isspace x); [|done].
  intros H. apply orb_false_iff in H as [_ H]. by apply IH.
Qed.

Lemma has_char_rstrip c s :
  Py.has_char c s = false → Py.has_char c (Py.rstrip s) = false.
Proof.
  induction s as [|x s IH]; [done|]. simpl.
  intros H. apply orb_false_iff in H as [Hx H]. specialize (IH H).
  destruct (Py.rstrip s) as [|d t].
  - destruct (Py.isspace x); [done|]. simpl. by rewrite Hx.
  - simpl in *. by rewrite Hx, IH.
Qed.

Lemma has_char_strip c s :
  Py.has_char c s = false → Py.has_char c (Py.strip s) = false.
Proof. intros H. by apply has_char_rstrip, has_char_lstrip. Qed.

Lemma split_nonempty sep s : Py.split sep s ≠ [].
Proof.
  destruct s as [|x s]; [done|]. simpl.
  destruct (Ascii.eqb x sep); [done|]. by destruct (Py.split sep s).
Qed.

(** No field of [split] holds the separator; and a character that is not
    in the string is in no field. *)
Lemma split_fields sep c s :
  Forall (λ f, Py.has_char sep f = false
               ∧ (Py.has_char c s = false → Py.has_char c f = false))
         (Py.split sep s).
Proof.
  induction s as [|x s IH]; simpl.
  - by repeat constructor.
  - destruct (Ascii.eqb x sep) eqn:E.
    + constructor; [done|].
      eapply Forall_impl; [exact IH|]. intros f [H1 H2]. split; [done|].
      intros H. apply orb_false_iff in H as [_ H]. by apply H2.
    + pose proof (split_nonempty sep s) as Hne.
      destruct (Py.split sep s) as [|f fs]; [done|].
      inversion IH as [|? ? [H1 H2] Hfs]; subst. constructor.
      * simpl. rewrite E, H1. split; [done|].
        intros H. apply orb_false_iff in H as [Hx H]. by rewrite Hx, H2.
      * eapply Forall_impl; [exact Hfs|]. intros f' [H1' H2']. split; [done|].
        intros H. apply orb_false_iff in H as [_ H]. by apply H2'.
Qed.

Lemma split1_fst sep s : Py.has_char sep (Py.split1 sep s).1 = false.
Proof.
  induction s as [|x s IH]; [done|]. simpl.
  destruct (Ascii.eqb x sep) eqn:E; [done|].
  destruct (Py.split1 sep s) as [a b]. simpl in *. by rewrite E, IH.
Qed.

Lemma truthy_ne (s : string) : Py.truthy s = true ↔ s ≠ EmptyString.
Proof. by destruct s. Qed.

(** ** The text of the group *)

Section Captures.
Context (fl : flags).

Lemma star_loop_captures {R : Type} (r : regex) body gr
    (k : string → option string → option R) :
  captures_for fl r body →
  ∀ n s g x, star_loop body gr k n s g = Some x →
    ∃ s1 g1, captures fl (Star gr r) s s1 g g1 ∧ k s1 g1 = Some x.
Proof.
  intros Hbody n. induction n as [|n IHn]; intros s g x H.
  - destruct gr; simpl in H.
    + eauto using captures.
    + destruct (k s g) eqn:E; [|done]. inversion H; subst.
      eauto using captures.
  - assert (Hagain : ∀ y,
      body s g (λ s1 g1, if (String.length s1 <? String.length s)%nat
                         then star_loop body gr k n s1 g1 else None)
        = Some y →
      ∃ s1 g1, captures fl (Star gr r) s s1 g g1 ∧ k s1 g1 = Some y).
    { intros y Hy. apply Hbody in Hy as (s1 & g1 & M1 & Hy).
      destruct (String.length s1 <? String.length s)%nat; [|done].
      apply IHn in Hy as (s2 & g2 & M2 & Hy). eauto using captures. }
    destruct gr; simpl in H.
    + match type of H with
      | match ?a with _ => _ end = _ => destruct a eqn:E
      end.
      * inversion H; subst. by apply Hagain.
      * eauto using captures.
    + destruct (k s g) eqn:E.
      * inversion H; subst. eauto using captures.
      * by apply Hagain.
Qed.

(** What the matcher finds is a match of the pattern, and the group it
    hands on is the text of the group in that match. *)
Lemma m_captures (r : regex) : ∀ R : Type, captures_for (R:=R) fl r (m fl r).
Proof.
  induction r as [ |c| | | |cs|r1 IH1 r2 IH2|r1 IH1 r2 IH2|gr r1 IH1
                 |r1 IH1| |r1 IH1];
    intros R s g k x H; simpl in H.
  - eauto using captures.
  - destruct s as [|c0 s]; [done|].
    destruct (same_char fl c c0) eqn:E; [|done]. eauto using captures.
  - destruct s as [|c0 s]; [done|].
    destruct (Py.isspace c0) eqn:E; [|done]. eauto using captures.
  - destruct s as [|c0 s]; [done|].
    destruct (Py.isdigit c0) eqn:E; [|done]. eauto using captures.
  - destruct s as [|c0 s]; [done|].
    destruct (dotall fl || negb (Ascii.eqb c0 newline)) eqn:E; [|done].
    eauto using captures.
  - destruct s as [|c0 s]; [done|].
    destruct (existsb (same_char fl c0) cs) eqn:E; [|done].
    eauto using captures.
  - apply IH1 in H as (s1 & g1 & M1 & H).
    apply IH2 in H as (s2 & g2 & M2 & H). eauto using captures.
  - destruct (m fl r1 s g k) eqn:E.
    + inversion H; subst. apply IH1 in E as (s1 & g1 & M1 & E).
      eauto using captures.
    + apply IH2 in H as (s1 & g1 & M1 & E'). eauto using captures.
  - eapply star_loop_captures; [apply IH1|exact H].
  - apply IH1 in H as (s1 & g1 & M1 & H). eauto using captures.
  - destruct (at_end s) eqn:E; [|done]. eauto using captures.
  - destruct (m fl r1 s g (λ _ _, Some ())) eqn:E; [|done].
    apply IH1 in E as (s1 & g1 & M1 & _). eauto using captures.
Qed.

Lemma match_at_captures (r : regex) (s : string) (f : found) :
  match_at fl r s = Some f → captures fl r s (rest f) None (group1 f).
Proof.
  unfold match_at. intros H.
  apply m_captures in H as (s1 & g1 & M & H). by inversion H; subst.
Qed.

Lemma search_captures (r : regex) (text : string) (f : found) :
  search fl r text = Some f →
  ∃ before s, text = before +:+ s ∧ captures fl r s (rest f) None (group1 f).
Proof.
  induction text as [|c text IH]; simpl.
  - destruct (match_at fl r EmptyString) eqn:E; [|done].
    intros H; inversion H; subst.
    exists EmptyString, EmptyString. split; [done|].
    by apply match_at_captures.
  - destruct (match_at fl r (String c text)) eqn:E.
    + intros H; inversion H; subst.
      exists EmptyString, (String c text). split; [done|].
      by apply match_at_captures.
    + intros H. apply IH in H as (b & s & -> & M).
      by exists (String c b), s.
Qed.

(** A pattern of one character takes one character that satisfies its
    predicate, and leaves the group as it is. *)
Lemma captures_class r ok s s1 g g1 :
  class_of fl r = Some ok → captures fl r s s1 g g1 →
  g1 = g ∧ ∃ c, s = String c s1 ∧ ok c = true.
Proof.
  intros Hr H. destruct H; simpl in Hr; try done;
    inversion Hr; subst; eauto.
Qed.

(** A star over a pattern of one character takes a run of characters that
    satisfy its predicate. *)
Lemma captures_class_star gr r ok s s1 g g1 :
  class_of fl r = Some ok → captures fl (Star gr r) s s1 g g1 →
  g1 = g ∧ ∃ a, s = a +:+ s1 ∧ every ok a = true.
Proof.
  intros Hr H. remember (Star gr r) as sr eqn:Hsr.
  induction H as [| | | | | | | | | |gr' r' s s1 s2 g g1 g2 H1 _ H2 IH| | |];
    try done.
  - split; [done|]. by exists EmptyString.
  - inversion Hsr; subst.
    destruct (captures_class _ _ _ _ _ _ Hr H1) as (-> & c & -> & Hc).
    destruct (IH eq_refl) as (-> & a & -> & Ha).
    split; [done|]. exists (String c a). split; [done|].
    simpl. by rewrite Hc, Ha.
Qed.
End Captures.

Lemma substring_prefix (a b : string) :
  substring 0 (String.length a) (a +:+ b) = a.
Proof.
  induction a as [|x a IH].
  - by destruct b.
  - rewrite string_app_cons. simpl. by rewrite IH.
Qed.

(** The text consumed between a text and its suffix is what is before the
    suffix. *)
Lemma consumed_app (a s1 : string) : consumed (a +:+ s1) s1 = a.
Proof.
  unfold consumed. rewrite string_app_length.
  replace (String.length a + String.length s1 - String.length s1)%nat
    with (String.length a) by lia.
  apply substring_prefix.
Qed.

Lemma every_has_char (c : ascii) (ok : ascii → bool) (s : string) :
  ok c = false → every ok s = true → Py.has_char c s = false.
Proof.
  intros Hc. induction s as [|x s IH]; [done|]. simpl.
  intros H. apply andb_true_iff in H as [Hx H].
  rewrite (IH H), orb_false_r.
  destruct (Ascii.eqb_spec x c) as [->|]; [congruence|done].
Qed.

(** ** What the parser returns *)

(** The group [(C+)] over a pattern of one character holds a run of
    characters that satisfy its predicate, at least one. *)
Lemma captures_group_plus fl gr r ok s s1 g g1 :
  class_of fl r = Some ok →
  captures fl (Group (Cat r (Star gr r))) s s1 g g1 →
  ∃ c a, s = String c (a +:+ s1) ∧ g1 = Some (String c a)
         ∧ ok c = true ∧ every ok a = true.
Proof.
  intros Hr H. inversion H as [| | | | | | | | | | |r' s' s1' g' g2 Hcat| |];
    subst.
  inversion Hcat as [| | | | | |r1 r2 s' s2 s3 g' g3 g4 H1 H2| | | | | | |];
    subst.
  destruct (captures_class _ _ _ _ _ _ _ Hr H1) as (-> & c & -> & Hc).
  destruct (captures_class_star _ _ _ _ _ _ _ _ Hr H2) as (-> & a & -> & Ha).
  exists c, a. split_and!; [done| |done|done].
  by rewrite <- string_app_cons, consumed_app.
Qed.

(** Inversion of a match of a pattern written out: the sequences, the
    literals and the runs of white space, which leave the group alone. *)
Ltac invert_captures :=
  repeat match goal with
  | H : captures _ (Cat _ _) _ _ _ _ |- _ => inversion H; clear H; subst
  | H : captures _ (Lit _) _ _ _ _ |- _ => inversion H; clear H; subst
  | H : captures _ Eol _ _ _ _ |- _ => inversion H; clear H; subst
  | H : captures _ Eps _ _ _ _ |- _ => inversion H; clear H; subst
  | H : captures _ (Or _ _) _ _ _ _ |- _ => inversion H; clear H; subst
  | H : captures _ (Ahead _) _ _ _ _ |- _ => inversion H; clear H; subst
  | H : captures _ (Star _ Space) _ _ _ _ |- _ =>
      apply (captures_class_star _ _ _ Py.isspace) in H
        as (-> & ? & -> & ?); [|done]
  end.

Lemma tags_group (text : string) (f : found) :
  search IGNORECASE tags_pattern text = Some f →
  ∃ line, group1 f = Some line ∧ line ≠ EmptyString
          ∧ Py.has_char newline line = false.
Proof.
  intros H. apply search_captures in H as (before & s & -> & H).
  cbv [tags_pattern Cats Str ws Plus] in H.
  repeat match goal with
  | H : captures _ (Cat ?r _) _ _ _ _ |- _ =>
      lazymatch r with
      | Group _ => fail
      | _ => inversion H; clear H; subst
      end
  | H : captures _ (Lit _) _ _ _ _ |- _ => inversion H; clear H; subst
  | H : captures _ (Star _ Space) _ _ _ _ |- _ =>
      apply (captures_class_star _ _ _ Py.isspace) in H
        as (-> & ? & -> & ?); [|done]
  end.
  match goal with
  | H : captures _ (Cat (Group _) _) _ _ _ _ |- _ =>
      inversion H as [| | | | | |r1 r2 s0 s1 s2 g0 g1 g2 Hg Hend| | | | | | |];
      clear H; subst
  end.
  eapply captures_group_plus in Hg as (c & a & -> & -> & Hc & Ha); [|done].
  assert (group1 f = Some (String c a)) as ->.
  { inversion Hend; subst; invert_captures; done. }
  exists (String c a). split_and!; [done|done|].
  simpl in *. apply negb_true_iff in Hc. rewrite Hc. simpl.
  eapply every_has_char; [|exact Ha]. done.
Qed.

Lemma bullet_group (s : string) (f : found) :
  match_at NOFLAGS bullet_pattern s = Some f →
  ∃ item, group1 f = Some item ∧ Py.has_char newline item = false.
Proof.
  intros H. apply match_at_captures in H.
  cbv [bullet_pattern Cats ws Plus] in H.
  repeat match goal with
  | H : captures _ (Cat ?r _) _ _ _ _ |- _ =>
      lazymatch r with
      | Group _ => fail
      | _ => inversion H; clear H; subst
      end
  | H : captures _ (OneOf _) _ _ _ _ |- _ => inversion H; clear H; subst
  | H : captures _ (Star _ Space) _ _ _ _ |- _ =>
      apply (captures_class_star _ _ _ Py.isspace) in H
        as (-> & ? & -> & ?); [|done]
  end.
  match goal with
  | H : captures _ (Group _) _ _ _ _ |- _ =>
      eapply captures_group_plus in H as (c & a & _ & -> & Hc & Ha); [|done]
  end.
  exists (String c a). split; [done|].
  simpl in *. apply negb_true_iff in Hc. rewrite Hc. simpl.
  eapply every_has_char; [|exact Ha]. done.
Qed.

(** Every element of [findall] is the group of a match. *)
Lemma findall_from_groups fl r (x : string) :
  ∀ s skip, x ∈ findall_from fl r skip s →
    ∃ s' f, match_at fl r s' = Some f ∧ x = default EmptyString (group1 f).
Proof.
  induction s as [|c s IH]; intros skip Hx.
  - destruct skip; simpl in Hx; [|by apply elem_of_nil in Hx].
    destruct (match_at fl r EmptyString) eqn:E;
      [|by apply elem_of_nil in Hx].
    apply list_elem_of_singleton in Hx. eauto.
  - destruct skip as [|n]; simpl in Hx; [|by eapply IH].
    destruct (match_at fl r (String c s)) eqn:E; [|by eapply IH].
    apply elem_of_cons in Hx as [->|Hx]; [eauto|by eapply IH].
Qed.

Lemma bullet_items (block item : string) :
  item ∈ findall NOFLAGS bullet_pattern block →
  Py.has_char newline item = false.
Proof.
  intros H. apply findall_from_groups in H as (s' & f & Hf & ->).
  apply bullet_group in Hf as (item & -> & H). done.
Qed.

(** X1. Every tag that [extract_tags] returns is not empty, has no white
    space at either end, and holds neither a comma nor a newline. *)
Theorem extract_tags_clean (text tag : string) :
  tag ∈ extract_tags text →
  tag ≠ EmptyString ∧ trimmed tag
  ∧ Py.has_char "," tag = false ∧ Py.has_char newline tag = false.
Proof.
  unfold extract_tags.
  destruct (search IGNORECASE tags_pattern text) as [f|] eqn:E;
    [|by intros H; apply elem_of_nil in H].
  apply tags_group in E as (line & Hg & _ & Hnl).
  unfold group. rewrite Hg. cbn [default].
  intros H. apply list_elem_of_fmap in H as (field & -> & H).
  apply list_elem_of_filter in H as [Hne Hin].
  pose proof (split_fields "," newline line) as Hall.
  rewrite Forall_forall in Hall. destruct (Hall _ Hin) as [Hcomma Hnl'].
  split_and!.
  - by apply truthy_ne.
  - apply strip_trimmed.
  - by apply has_char_strip.
  - by apply has_char_strip, Hnl'.
Qed.

(** X2. Every title that [extract_children] returns is not empty, has no
    white space at either end and holds no newline. *)
Theorem extract_children_clean (text title : string) :
  title ∈ extract_children text →
  title ≠ EmptyString ∧ trimmed title ∧ Py.has_char newline title = false.
Proof.
  unfold extract_children.
  destruct (search IGNORECASE children_pattern text) as [f|] eqn:E;
    [|by intros H; apply elem_of_nil in H].
  intros H. apply list_elem_of_fmap in H as (item & -> & H).
  apply list_elem_of_filter in H as [Hne Hin].
  apply bullet_items in Hin.
  split_and!.
  - by apply truthy_ne.
  - apply strip_trimmed.
  - by apply has_char_strip.
Qed.

Lemma split1_has_char sep c s :
  Py.has_char c s = false →
  Py.has_char c (Py.split1 sep s).1 = false
  ∧ Py.has_char c (Py.split1 sep s).2 = false.
Proof.
  induction s as [|x s IH]; [done|]. simpl.
  intros H. apply orb_false_iff in H as [Hx H]. specialize (IH H).
  destruct (Ascii.eqb x sep); [done|].
  destruct (Py.split1 sep s) as [a b]. simpl in *. by rewrite Hx.
Qed.

Lemma link_of_line_clean (line url name : string) :
  link_of_line line = Some (url, name) →
  url ≠ EmptyString ∧ trimmed url ∧ trimmed name
  ∧ Py.has_char "|" url = false
  ∧ (Py.has_char newline line = false →
     Py.has_char newline url = false ∧ Py.has_char newline name = false)
  ∧ (Py.has_char "|" line = false → url = Py.strip line ∧ name = url).
Proof.
  unfold link_of_line.
  destruct (Py.truthy (Py.strip line)) eqn:Hline; [|done]. cbn [negb].
  destruct (Py.has_char "|" (Py.strip line)) eqn:Hbar.
  - pose proof (split1_fst "|" (Py.strip line)) as Hfst.
    pose proof (split1_has_char "|" newline (Py.strip line)) as Hnl.
    destruct (Py.split1 "|" (Py.strip line)) as [a b]. cbn [fst snd] in *.
    destruct (Py.truthy (Py.strip a)) eqn:Ha; [|done].
    intros H; inversion H; subst. split_and!.
    + by apply truthy_ne.
    + apply strip_trimmed.
    + apply strip_trimmed.
    + by apply has_char_strip.
    + intros Hl. destruct (Hnl (has_char_strip _ _ Hl)).
      split; by apply has_char_strip.
    + intros Hl. apply has_char_strip in Hl. congruence.
  - rewrite Hline. intros H; inversion H; subst. split_and!.
    + by apply truthy_ne.
    + apply strip_trimmed.
    + apply strip_trimmed.
    + done.
    + intros Hl. split; by apply has_char_strip.
    + done.
Qed.

(** X3. Every pair that [extract_links] returns has a URL that is not
    empty and holds no [|]; the URL and the name have no white space at
    either end and hold no newline. *)
Theorem extract_links_clean (text url name : string) :
  (url, name) ∈ extract_links text →
  url ≠ EmptyString ∧ trimmed url ∧ trimmed name
  ∧ Py.has_char "|" url = false
  ∧ Py.has_char newline url = false ∧ Py.has_char newline name = false.
Proof.
  unfold extract_links.
  destruct (search IGNORECASE links_pattern text) as [f|] eqn:E;
    [|by intros H; apply elem_of_nil in H].
  intros H. apply list_elem_of_omap in H as (line & Hin & Hl).
  apply bullet_items in Hin.
  destruct (link_of_line_clean _ _ _ Hl) as (H1 & H2 & H3 & H4 & H5 & _).
  destruct (H5 Hin). by split_and!.
Qed.

(** X4. A description in which the pattern of a directive matches
    nowhere gives the empty value of that directive: no tag, no child
    title, no comment ([None]) and no link. *)
Theorem missing_directive_is_empty (text : string) :
  (¬ occurs IGNORECASE tags_pattern text → extract_tags text = [])
  ∧ (¬ occurs IGNORECASE children_pattern text → extract_children text = [])
  ∧ (¬ occurs IGNORECASE_DOTALL comment_pattern text →
     extract_comment text = None)
  ∧ (¬ occurs IGNORECASE links_pattern text → extract_links text = []).
Proof.
  unfold extract_tags, extract_children, extract_comment, extract_links.
  split_and!; intros Hno;
    match goal with
    | |- context [search ?fl ?r text] =>
        destruct (search fl r text) as [f|] eqn:E; [|done];
        destruct Hno; by eapply search_sound
    end.
Qed.

(** ** The priorities of the matcher *)

Section Priorities.
Context (fl : flags).

Lemma m_class {R : Type} r ok s g (k : string → option string → option R) :
  class_of fl r = Some ok →
  m fl r s g k =
    match s with
    | String c s' => if ok c then k s' g else None
    | EmptyString => None
    end.
Proof. intros Hr. destruct r; simpl in Hr; try done; by inversion Hr. Qed.

(** A greedy star over a pattern of one character takes the whole run of
    such characters, when what follows the star matches after the run. *)
Lemma star_greedy_run {R : Type} r ok
    (k : string → option string → option R) rest g x :
  class_of fl r = Some ok → stops ok rest = true → k rest g = Some x →
  ∀ run n, every ok run = true →
    (String.length (run +:+ rest) ≤ n)%nat →
    star_loop (m fl r) true k n (run +:+ rest) g = Some x.
Proof.
  intros Hr Hstop Hk run. induction run as [|c run IH]; intros n Hrun Hn.
  - change (EmptyString +:+ rest) with rest.
    destruct n as [|n]; simpl; [done|].
    rewrite (m_class r ok) by done.
    destruct rest as [|c rest]; [done|]. simpl in Hstop.
    apply negb_true_iff in Hstop. by rewrite Hstop.
  - rewrite string_app_cons in *. simpl in Hrun.
    apply andb_true_iff in Hrun as [Hc Hrun].
    destruct n as [|n]; [simpl in Hn; lia|]. simpl.
    rewrite (m_class r ok) by done. rewrite Hc.
    replace (String.length (run +:+ rest) <? S (String.length (run +:+ rest)))%nat
      with true by (symmetry; apply Nat.ltb_lt; lia).
    rewrite IH; [done|done|simpl in Hn; lia].
Qed.

(** A lazy star over a pattern of one character stops at the first place
    where what follows the star matches. *)
Lemma star_lazy_run {R : Type} r ok
    (k : string → option string → option R) rest g x :
  class_of fl r = Some ok → k rest g = Some x →
  ∀ run n, every ok run = true →
    (∀ a1 a2, run = a1 +:+ a2 → a2 ≠ EmptyString →
              k (a2 +:+ rest) g = None) →
    (String.length (run +:+ rest) ≤ n)%nat →
    star_loop (m fl r) false k n (run +:+ rest) g = Some x.
Proof.
  intros Hr Hk run. induction run as [|c run IH]; intros n Hrun Hnot Hn.
  - change (EmptyString +:+ rest) with rest.
    destruct n as [|n]; simpl; by rewrite Hk.
  - rewrite string_app_cons in *. simpl in Hrun.
    apply andb_true_iff in Hrun as [Hc Hrun].
    destruct n as [|n]; [simpl in Hn; lia|]. simpl.
    rewrite <- string_app_cons.
    rewrite (Hnot EmptyString (String c run)) by done.
    rewrite string_app_cons.
    rewrite (m_class r ok) by done. rewrite Hc.
    replace (String.length (run +:+ rest) <? S (String.length (run +:+ rest)))%nat
      with true by (symmetry; apply Nat.ltb_lt; lia).
    apply IH; [done| |simpl in Hn; lia].
    intros a1 a2 -> Ha2. by apply (Hnot (String c a1) a2).
Qed.

Lemma m_Str {R : Type} p :
  ∀ x s g (k : string → option string → option R),
    agree fl p x = true → m fl (Str p) (x +:+ s) g k = k s g.
Proof.
  induction p as [|c p IH]; intros x s g k Hx.
  - by destruct x.
  - destruct x as [|y x]; [done|]. simpl in Hx.
    apply andb_true_iff in Hx as [Hy Hx]. rewrite string_app_cons.
    destruct p as [|c' p].
    + destruct x; [|done]. simpl. by rewrite Hy.
    + change (Str (String c (String c' p)))
        with (Cat (Lit c) (Str (String c' p))).
      cbn [m]. rewrite Hy. by apply IH.
Qed.

Lemma search_skip (r : regex) (before s : string) :
  ¬ matches_within fl r before s →
  search fl r (before +:+ s) = search fl r s.
Proof.
  induction before as [|c before IH]; intros Hno; [done|].
  rewrite string_app_cons. cbn [search].
  destruct (match_at fl r (String c (before +:+ s))) as [f|] eqn:E.
  - destruct Hno. unfold match_at in E.
    apply m_sound in E as (s1 & g1 & M & _).
    exists EmptyString, (String c before), s1. by rewrite string_app_cons.
  - apply IH. intros (b1 & b2 & s1 & -> & Hb2 & M). apply Hno.
    by exists (String c b1), b2, s1.
Qed.

Lemma search_here (r : regex) (s : string) (f : found) :
  match_at fl r s = Some f → search fl r s = Some f.
Proof. intros H. destruct s; simpl; by rewrite H. Qed.
End Priorities.

Lemma agree_lower (p x : string) :
  Py.lower x = Py.lower p → agree IGNORECASE p x = true.
Proof.
  revert x. induction p as [|c p IH]; intros [|y x] H; try done.
  simpl in *. inversion H as [[Hc Hx]].
  rewrite (IH _ Hx), andb_true_r. unfold same_char. simpl.
  rewrite Hc. apply Ascii.eqb_refl.
Qed.

Lemma digit_not_space (c : ascii) :
  Py.isdigit c = true → Py.isspace c = false.
Proof.
  destruct c as [b0 b1 b2 b3 b4 b5 b6 b7].
  destruct b0, b1, b2, b3, b4, b5, b6, b7; by vm_compute.
Qed.

Lemma letter_not_space (c x : ascii) :
  Py.isspace (Py.lower_char x) = false → Py.lower_char c = Py.lower_char x →
  Py.isspace c = false.
Proof.
  destruct c as [b0 b1 b2 b3 b4 b5 b6 b7].
  intros Hx Hc. destruct (Py.isspace (Ascii b0 b1 b2 b3 b4 b5 b6 b7)) eqn:E;
    [|done].
  rewrite <- Hc in Hx. clear Hc.
  destruct b0, b1, b2, b3, b4, b5, b6, b7; by vm_compute in E, Hx.
Qed.

Lemma digits_value_nonneg_go (s : string) (acc : Z) :
  every Py.isdigit s = true → 0 ≤ acc →
  0 ≤ (fix go (acc : Z) (s : string) : Z :=
         match s with
         | EmptyString => acc
         | String c s' => go (10 * acc + Py.digit_value c) s'
         end) acc s.
Proof.
  revert acc. induction s as [|c s IH]; intros acc Hs Hacc; [done|].
  simpl in Hs. apply andb_true_iff in Hs as [Hc Hs]. apply IH; [done|].
  assert (0 ≤ Py.digit_value c); [|lia].
  unfold Py.isdigit, Py.digit_value in *.
  apply andb_true_iff in Hc as [Hc _]. apply N.leb_le in Hc. lia.
Qed.

(** ** The first match of a directive *)

Lemma lower_first_not_space (p x rest : string) (c : ascii) :
  Py.lower x = String c p → Py.isspace c = false →
  stops Py.isspace (x +:+ rest) = true.
Proof.
  destruct x as [|y x]; [done|]. simpl. intros H Hc. inversion H; subst.
  apply negb_true_iff.
  apply (letter_not_space y y); [|done]. 
  destruct y as [b0 b1 b2 b3 b4 b5 b6 b7].
  destruct b0, b1, b2, b3, b4, b5, b6, b7; by vm_compute in Hc |- *.
Qed.

(** The match of the card pattern at the start of a text of the shape
    [ADO Card: <digits>]. *)
Lemma match_at_card (ado w1 card w2 w3 ds rest : string) :
  Py.lower ado = "ado" → Py.lower card = "card" →
  every Py.isspace w1 = true → every Py.isspace w2 = true →
  every Py.isspace w3 = true →
  ds ≠ EmptyString → every Py.isdigit ds = true →
  stops Py.isdigit rest = true →
  match_at IGNORECASE card_pattern
    (ado +:+ w1 +:+ card +:+ w2 +:+ ":" +:+ w3 +:+ ds +:+ rest)
  = Some (Found (Some ds) rest).
Proof.
  intros Hado Hcard H1 H2 H3 Hds Hdig Hrest.
  unfold match_at.
  change card_pattern with
    (Cat (Str "ADO") (Cat ws (Cat (Str "Card") (Cat ws (Cat (Lit ":")
       (Cat ws (Group (Cat Digit (Star true Digit))))))))).
  cbn [m].
  rewrite (m_Str IGNORECASE "ADO") by by apply agree_lower.
  unfold ws at 1. cbn [m].
  apply (star_greedy_run IGNORECASE Space Py.isspace); [done| | |done|lia].
  { eapply lower_first_not_space; [exact Hcard|done]. }
  rewrite (m_Str IGNORECASE "Card") by by apply agree_lower.
  unfold ws at 1. cbn [m].
  apply (star_greedy_run IGNORECASE Space Py.isspace); [done|done| |done|lia].
  rewrite string_app_cons. change (EmptyString +:+ ?x) with x.
  change (same_char IGNORECASE ":" ":") with true. cbn iota.
  unfold ws at 1. cbn [m].
  destruct ds as [|d ds]; [done|]. simpl in Hdig.
  apply andb_true_iff in Hdig as [Hd Hdig].
  apply (star_greedy_run IGNORECASE Space Py.isspace); [done| | |done|lia].
  { rewrite string_app_cons. simpl. by rewrite digit_not_space. }
  rewrite string_app_cons. rewrite Hd.
  apply (star_greedy_run IGNORECASE Digit Py.isdigit); [done|done| |done|lia].
  by rewrite <- string_app_cons, consumed_app.
Qed.

(** X5. In a description of the shape
    [before ADO w1 Card w2 : w3 digits rest], with the two words in any
    case, [w1], [w2] and [w3] runs of white space that may be empty or
    hold newlines, at least one and at most 4300 digits, [rest] not
    beginning with a digit, and no match of the card pattern that starts
    inside [before], [extract_ado_card_number] gives the number that the
    whole run of digits reads as in base ten; it is not negative. *)
Theorem extract_ado_card_number_leftmost
    (before ado w1 card w2 w3 ds rest : string) :
  let directive :=
    ado +:+ w1 +:+ card +:+ w2 +:+ ":" +:+ w3 +:+ ds +:+ rest in
  Py.lower ado = "ado" → Py.lower card = "card" →
  every Py.isspace w1 = true → every Py.isspace w2 = true →
  every Py.isspace w3 = true →
  ds ≠ EmptyString → every Py.isdigit ds = true →
  (String.length ds ≤ Py.int_max_str_digits)%nat →
  stops Py.isdigit rest = true →
  ¬ matches_within IGNORECASE card_pattern before directive →
  extract_ado_card_number (before +:+ directive)
  = Value (Some (Py.digits_value ds))
  ∧ 0 ≤ Py.digits_value ds.
Proof.
  intros directive Hado Hcard H1 H2 H3 Hds Hdig Hlen Hrest Hno.
  subst directive. split; [|by apply digits_value_nonneg_go].
  unfold extract_ado_card_number.
  rewrite (search_skip _ _ _ _ Hno).
  rewrite (search_here _ _ _ _
             (match_at_card ado w1 card w2 w3 ds rest Hado Hcard H1 H2 H3
                Hds Hdig Hrest)).
  unfold group, Py.int. cbn [group1 default].
  unfold id. apply Nat.leb_le in Hlen. by rewrite Hlen.
Qed.

Lemma same_char_newline (y : ascii) :
  same_char IGNORECASE newline y = Ascii.eqb y newline.
Proof.
  destruct y as [b0 b1 b2 b3 b4 b5 b6 b7].
  destruct b0, b1, b2, b3, b4, b5, b6, b7; by vm_compute.
Qed.

Lemma has_char_every_not (c : ascii) (s : string) :
  Py.has_char c s = false → every (λ x, negb (Ascii.eqb x c)) s = true.
Proof.
  induction s as [|x s IH]; [done|]. simpl.
  intros H. apply orb_false_iff in H as [Hx H]. by rewrite Hx, IH.
Qed.

(** The match of the tags pattern at the start of a text of the shape
    [ADO Tags: <line>], the line ending the text or ended by a newline. *)
Lemma match_at_tags (ado w1 tagsw w2 w3 line after : string) :
  Py.lower ado = "ado" → Py.lower tagsw = "tags" →
  every Py.isspace w1 = true → every Py.isspace w2 = true →
  every Py.isspace w3 = true →
  line ≠ EmptyString → stops Py.isspace line = true →
  Py.has_char newline line = false →
  stops (λ c, negb (Ascii.eqb c newline)) after = true →
  ∃ f, match_at IGNORECASE tags_pattern
         (ado +:+ w1 +:+ tagsw +:+ w2 +:+ ":" +:+ w3 +:+ line +:+ after)
       = Some f ∧ group1 f = Some line.
Proof.
  intros Hado Htags H1 H2 H3 Hline Hfirst Hnl Hafter.
  unfold match_at.
  change tags_pattern with
    (Cat (Str "ADO") (Cat ws (Cat (Str "Tags") (Cat ws (Cat (Lit ":")
       (Cat ws (Cat (Group (Cat Dot (Star false Dot)))
                    (Or (Lit newline) Eol)))))))).
  destruct line as [|c line]; [done|].
  simpl in Hnl. apply orb_false_iff in Hnl as [Hc Hnl].
  assert (Hend : ∃ f,
    m IGNORECASE (Or (Lit newline) Eol) after (Some (String c line))
      (λ s1 g, Some (Found g s1)) = Some f
    ∧ group1 f = Some (String c line)).
  { destruct after as [|y after].
    - by eexists.
    - simpl in Hafter. apply negb_true_iff, negb_false_iff in Hafter.
      cbn [m]. rewrite same_char_newline, Hafter. by eexists. }
  destruct Hend as (f & Hf & Hg). exists f. split; [|done].
  cbn [m].
  rewrite (m_Str IGNORECASE "ADO") by by apply agree_lower.
  unfold ws at 1. cbn [m].
  apply (star_greedy_run IGNORECASE Space Py.isspace); [done| | |done|lia].
  { eapply lower_first_not_space; [exact Htags|done]. }
  rewrite (m_Str IGNORECASE "Tags") by by apply agree_lower.
  unfold ws at 1. cbn [m].
  apply (star_greedy_run IGNORECASE Space Py.isspace); [done|done| |done|lia].
  rewrite string_app_cons. change (EmptyString +:+ ?x) with x.
  change (same_char IGNORECASE ":" ":") with true. cbn iota.
  unfold ws at 1. cbn [m].
  apply (star_greedy_run IGNORECASE Space Py.isspace); [done| | |done|lia].
  { by rewrite string_app_cons. }
  rewrite string_app_cons. cbn [dotall IGNORECASE orb]. rewrite Hc. cbn [negb].
  apply (star_lazy_run IGNORECASE Dot (λ x, false || negb (Ascii.eqb x newline)));
    [done| |by apply has_char_every_not| |lia].
  - by rewrite <- string_app_cons, consumed_app.
  - intros a1 a2 -> Ha2. destruct a2 as [|y a2]; [done|].
    rewrite string_app_cons.
    assert (Hy : Ascii.eqb y newline = false).
    { clear -Hnl. induction a1 as [|x a1 IH].
      - simpl in Hnl. by apply orb_false_iff in Hnl as [? _].
      - rewrite string_app_cons in Hnl. simpl in Hnl.
        apply orb_false_iff in Hnl as [_ Hnl]. by apply IH. }
    rewrite same_char_newline, Hy. unfold at_end.
    destruct (a2 +:+ after); by rewrite ?Hy.
Qed.

(** X6. In a description of the shape
    [before ADO w1 Tags w2 : w3 line after], with the two words in any
    case, [w1], [w2] and [w3] runs of white space, [line] not empty, not
    beginning with white space and without a newline, [after] empty or
    beginning with a newline, and no match of the tags pattern that
    starts inside [before], the tags are the fields of [line] between its
    commas, stripped, without those that are empty once stripped, in the
    order of the line. *)
Theorem extract_tags_of_line
    (before ado w1 tagsw w2 w3 line after : string) :
  let directive :=
    ado +:+ w1 +:+ tagsw +:+ w2 +:+ ":" +:+ w3 +:+ line +:+ after in
  Py.lower ado = "ado" → Py.lower tagsw = "tags" →
  every Py.isspace w1 = true → every Py.isspace w2 = true →
  every Py.isspace w3 = true →
  line ≠ EmptyString → stops Py.isspace line = true →
  Py.has_char newline line = false →
  stops (λ c, negb (Ascii.eqb c newline)) after = true →
  ¬ matches_within IGNORECASE tags_pattern before directive →
  extract_tags (before +:+ directive)
  = Py.strip <$> filter (λ tag, Py.truthy (Py.strip tag) = true)
                        (Py.split "," line).
Proof.
  intros directive Hado Htags H1 H2 H3 Hline Hfirst Hnl Hafter Hno.
  subst directive. unfold extract_tags.
  rewrite (search_skip _ _ _ _ Hno).
  destruct (match_at_tags ado w1 tagsw w2 w3 line after Hado Htags H1 H2 H3
              Hline Hfirst Hnl Hafter) as (f & Hf & Hg).
  rewrite (search_here _ _ _ _ Hf). unfold group. by rewrite Hg.
Qed.

Lemma every_true (s : string) : every (λ _, true) s = true.
Proof. induction s as [|c s IH]; [done|]. done. Qed.

(** The match of the comment pattern at the start of a text of the shape
    [ADO Comment: <body>], where [comment_end] matches after the body and
    nowhere inside it. *)
Lemma match_at_comment (ado w1 commentw w2 w3 : string) (c : ascii)
    (body after : string) :
  Py.lower ado = "ado" → Py.lower commentw = "comment" →
  every Py.isspace w1 = true → every Py.isspace w2 = true →
  every Py.isspace w3 = true → Py.isspace c = false →
  ¬ matches_within IGNORECASE_DOTALL comment_end body after →
  (∃ s1, matches IGNORECASE_DOTALL comment_end after s1) →
  ∃ f, match_at IGNORECASE_DOTALL comment_pattern
         (ado +:+ w1 +:+ commentw +:+ w2 +:+ ":" +:+ w3
            +:+ String c body +:+ after)
       = Some f ∧ group1 f = Some (String c body).
Proof.
  intros Hado Hcom H1 H2 H3 Hc Hinside [s1 Hend].
  unfold match_at.
  change comment_pattern with
    (Cat (Str "ADO") (Cat ws (Cat (Str "Comment") (Cat ws (Cat (Lit ":")
       (Cat ws (Cat (Group (Cat Dot (Star false Dot))) comment_end))))))).
  assert (Hfinal : ∃ f,
    m IGNORECASE_DOTALL comment_end after (Some (String c body))
      (λ s1 g, Some (Found g s1)) = Some f
    ∧ group1 f = Some (String c body)).
  { destruct (m IGNORECASE_DOTALL comment_end after (Some (String c body))
                (λ s1 g, Some (Found g s1))) as [f|] eqn:E.
    - exists f. split; [done|].
      apply m_captures in E as (s2 & g2 & M & E). inversion E; subst.
      unfold comment_end in M. cbv [Str] in M.
      inversion M; subst; invert_captures; done.
    - pose proof (m_complete _ _ _ _ Hend found (Some (String c body))
                    (λ s1 g, Some (Found g s1))
                    (λ g1, ltac:(by eexists))) as [f Hf].
      congruence. }
  destruct Hfinal as (f & Hf & Hg). exists f. split; [|done].
  cbn [m].
  rewrite (m_Str IGNORECASE_DOTALL "ADO")
    by (by apply (agree_lower "ADO")).
  unfold ws at 1. cbn [m].
  apply (star_greedy_run IGNORECASE_DOTALL Space Py.isspace);
    [done| | |done|lia].
  { eapply lower_first_not_space; [exact Hcom|done]. }
  rewrite (m_Str IGNORECASE_DOTALL "Comment")
    by (by apply (agree_lower "Comment")).
  unfold ws at 1. cbn [m].
  apply (star_greedy_run IGNORECASE_DOTALL Space Py.isspace);
    [done|done| |done|lia].
  rewrite string_app_cons. change (EmptyString +:+ ?x) with x.
  change (same_char IGNORECASE_DOTALL ":" ":") with true. cbn iota.
  unfold ws at 1. cbn [m].
  apply (star_greedy_run IGNORECASE_DOTALL Space Py.isspace);
    [done| | |done|lia].
  { rewrite string_app_cons. simpl. by rewrite Hc. }
  rewrite string_app_cons. cbn [dotall IGNORECASE_DOTALL orb].
  apply (star_lazy_run IGNORECASE_DOTALL Dot
           (λ x, true || negb (Ascii.eqb x newline)));
    [done| |apply every_true| |lia].
  - by rewrite <- string_app_cons, consumed_app.
  - intros a1 a2 -> Ha2.
    match goal with
    | |- ?lhs = None => destruct lhs as [x|] eqn:E; [|done]
    end.
    destruct Hinside. apply m_sound in E as (s2 & g2 & M & _).
    by exists a1, a2, s2.
Qed.

(** X7. In a description of the shape
    [before ADO w1 Comment w2 : w3 c body after], with the two words in
    any case, [w1], [w2] and [w3] runs of white space, [c] not a white
    space, where the end of a comment (a newline followed by [ADO] and a
    white space, or the end of the text) matches at [after] and at no
    place of [body], and no match of the comment pattern starts inside
    [before], [extract_comment] gives [c body] stripped: the comment runs
    over the lines up to the next directive or the end of the text. *)
Theorem extract_comment_until_end
    (before ado w1 commentw w2 w3 : string) (c : ascii)
    (body after : string) :
  let directive :=
    ado +:+ w1 +:+ commentw +:+ w2 +:+ ":" +:+ w3
      +:+ String c body +:+ after in
  Py.lower ado = "ado" → Py.lower commentw = "comment" →
  every Py.isspace w1 = true → every Py.isspace w2 = true →
  every Py.isspace w3 = true → Py.isspace c = false →
  ¬ matches_within IGNORECASE_DOTALL comment_end body after →
  (∃ s1, matches IGNORECASE_DOTALL comment_end after s1) →
  ¬ matches_within IGNORECASE_DOTALL comment_pattern before directive →
  extract_comment (before +:+ directive) = Some (Py.strip (String c body)).
Proof.
  intros directive Hado Hcom H1 H2 H3 Hc Hinside Hend Hno.
  subst directive. unfold extract_comment.
  rewrite (search_skip _ _ _ _ Hno).
  destruct (match_at_comment ado w1 commentw w2 w3 c body after Hado Hcom
              H1 H2 H3 Hc Hinside Hend) as (f & Hf & Hg).
  rewrite (search_here _ _ _ _ Hf). unfold group. by rewrite Hg.
Qed.

(** ** The reconcilers in every environment *)

Section Everywhere.
Context {S : Type} (h : handler S) (client : AdoClient) (id : Z).

(** The reads of the existing children return a map and change nothing,
    whatever they are answered. *)
Lemma exec_get_existing_child_titles_any (s : S) :
  ∃ existing s1 t,
    exec h (get_existing_child_titles client id) s
    = (Returned existing, s1, t)
    ∧ mutations t = [].
Proof.
  unfold get_existing_child_titles. simpl.
  destruct (h (PostWiqlChildren client id) s) as [[status rows] s0].
  case_decide; [by eexists _, _, _|].
  match goal with
  | |- context [match ?l with [] => _ | _ :: _ => _ end] => destruct l
  end; [by eexists _, _, _|].
  simpl.
  destruct (h (GetWorkItems client _) s0) as [[status' value] s1].
  simpl. case_decide; by eexists _, _, _.
Qed.

(** The requests of [sync_child_items] that change something, by what
    its reads are answered. *)
Lemma sync_child_items_any (titles : list string) (s : S) :
  let r := exec h (sync_child_items client id titles) s in
  let r0 := exec h (get_existing_child_titles client id) s in
  ∃ existing, r0.1.1 = Returned existing
  ∧ (titles = [] → r.2 = [])
  ∧ (titles ≠ [] →
     match (h (GetWorkItem client id) r0.1.2).1 with
     | None =>
         mutations r.2 = []
         ∧ last (requests r.2)
           = Some (Stderr ("Error: Could not fetch parent work item #"
                             +:+ pretty id))
     | Some parent =>
         mutations r.2 =
           create_child client id
             (default EmptyString (wi_fields parent !! "System.AreaPath"))
             (default EmptyString
                (wi_fields parent !! "System.IterationPath"))
             <$> filter (λ title, ¬ is_Some (existing !! Py.lower title))
                        titles
     end).
Proof.
  intros r r0.
  destruct (exec_get_existing_child_titles_any s)
    as (existing & s1 & t & Ht & Hm).
  exists existing. subst r r0. rewrite Ht. cbn [fst snd].
  split_and!; [done|by intros ->|]. intros Hne.
  destruct titles as [|title titles]; [done|].
  unfold sync_child_items. rewrite exec_bind, Ht.
  rewrite exec_bind, (exec_call h (GetWorkItem client id)).
  destruct (h (GetWorkItem client id) s1) as [[parent|] s2]; cbn [fst snd].
  - pose proof (exec_create_loop h client id existing
      (default EmptyString (wi_fields parent !! "System.AreaPath"))
      (default EmptyString (wi_fields parent !! "System.IterationPath"))
      (title :: titles) s2) as Hloop.
    cbv zeta in Hloop. unfold create_child in Hloop at 1.
    destruct (exec h _ s2) as [[o s3] t3]. cbn [fst snd] in *.
    destruct Hloop as [_ Hloop].
    rewrite !mutations_app, Hm, Hloop. done.
  - unfold eprint. rewrite (exec_call h (Stderr _)). cbn [fst snd].
    rewrite !mutations_app, Hm. split; [done|].
    rewrite !requests_app. by rewrite !last_app.
Qed.
End Everywhere.

Lemma filter_all {A : Type} (P : A → Prop) `{!∀ x, Decision (P x)}
    (l : list A) :
  Forall P l → filter P l = l.
Proof.
  induction 1 as [|x l Hx _ IH]; [done|].
  by rewrite filter_cons_True, IH.
Qed.

Lemma filter_none {A : Type} (P : A → Prop) `{!∀ x, Decision (P x)}
    (l : list A) :
  Forall (λ x, ¬ P x) l → filter P l = [].
Proof.
  induction 1 as [|x l Hx _ IH]; [done|].
  by rewrite filter_cons_False, IH.
Qed.

Section Reconcilers.
Context {S : Type} (h : handler S) (client : AdoClient) (id : Z).

Lemma sync_hyperlinks_any (links : list (string * string)) (s : S) :
  let r := exec h (sync_hyperlinks client id links) s in
  match (h (GetWorkItem client id) s).1 with
  | None => mutations r.2 = add_hyperlink client id <$> links
  | Some item =>
      mutations r.2 =
        add_hyperlink client id
          <$> filter (λ link, link.1 ∉ hyperlink_urls item) links
  end.
Proof.
  intros r. subst r.
  destruct (h (GetWorkItem client id) s) as [[item|] s1] eqn:Hitem;
    cbn [fst].
  - by destruct (sync_hyperlinks_mutations h client id item links s s1 Hitem).
  - destruct links as [|link links]; [done|].
    unfold sync_hyperlinks, get_existing_hyperlinks. cbv zeta.
    rewrite !exec_bind, (exec_call h (GetWorkItem client id)), Hitem.
    cbn [fst snd]. rewrite exec_ret.
    pose proof (exec_link_loop h client id ∅ (link :: links) s1) as Hloop.
    cbv zeta in Hloop.
    destruct (exec h _ s1) as [[o s3] t3]. cbn [fst snd] in *.
    destruct Hloop as [_ Hloop].
    cbn [app]. rewrite mutations_cons. cbn [ev_req is_mutation].
    rewrite Hloop. f_equal.
    apply filter_all, Forall_forall. intros link' _. apply not_elem_of_empty.
Qed.

Lemma sync_comment_any (text : string) (s : S) :
  text ≠ EmptyString →
  let full := COMMENT_MARKER +:+ nl +:+ text in
  let r := exec h (sync_comment client id text) s in
  mutations r.2 = [AddComment client id full]
  ∨ ∃ c, c ∈ (h (GetComments client id) s).1 ∧ marked c
         ∧ mutations r.2 = [UpdateComment client id (c_id c) full].
Proof.
  intros Htext full r. subst r.
  unfold sync_comment. destruct text as [|x text]; [done|].
  cbn [Py.truthy negb].
  rewrite exec_bind, (exec_call h (GetComments client id)).
  destruct (h (GetComments client id) s) as [comments s1]. cbn [fst snd].
  fold full.
  set (scan := fix scan (comments : list comment) : prog unit := _).
  assert (Hscan : ∀ comments s1,
    mutations (exec h (scan comments) s1).2 = [AddComment client id full]
    ∨ ∃ c, c ∈ comments ∧ marked c
           ∧ mutations (exec h (scan comments) s1).2
             = [UpdateComment client id (c_id c) full]).
  { clear. intros comments. induction comments as [|c cs IH]; intros s1.
    - left. simpl. by destruct (h (AddComment _ _ _) s1) as [a s2].
    - cbn [scan]. fold scan.
      destruct (Py.contains COMMENT_MARKER (default EmptyString (c_text c)))
        eqn:Hc.
      + right. exists c. apply contains_spec in Hc.
        split_and!; [by left|done|]. simpl.
        by destruct (h (UpdateComment _ _ _ _) s1) as [a s2].
      + destruct (IH s1) as [H|(c' & Hin & Hm & H)]; [by left|].
        right. exists c'. split_and!; [by right|done|done]. }
  destruct (Hscan comments s1) as [H|(c & Hin & Hm & H)];
    destruct (exec h (scan comments) s1) as [[o s2] t2];
    cbn [fst snd app] in *; rewrite mutations_cons; cbn [ev_req is_mutation].
  - by left.
  - right. by exists c.
Qed.

(** Each request of a reconciler that changes something is one of those
    it was asked for. *)
Lemma sync_child_items_creates_requested (titles : list string) (s : S)
    (q : request) :
  q ∈ mutations (exec h (sync_child_items client id titles) s).2 →
  ∃ title area_path iteration_path,
    title ∈ titles
    ∧ q = create_child client id area_path iteration_path title.
Proof.
  destruct (sync_child_items_any h client id titles s)
    as (existing & _ & Hnil & Hsome).
  destruct titles as [|title titles].
  { rewrite (Hnil eq_refl). intros H. by apply elem_of_nil in H. }
  specialize (Hsome ltac:(done)).
  destruct (h (GetWorkItem client id) _).1 as [parent|].
  - rewrite Hsome. intros H.
    apply list_elem_of_fmap in H as (t & -> & H).
    apply list_elem_of_filter in H as [_ H]. eauto.
  - destruct Hsome as [-> _]. intros H. by apply elem_of_nil in H.
Qed.

Lemma sync_comment_writes_requested (text : string) (s : S) (q : request) :
  q ∈ mutations (exec h (sync_comment client id text) s).2 →
  q = AddComment client id (COMMENT_MARKER +:+ nl +:+ text)
  ∨ ∃ comment_id,
      q = UpdateComment client id comment_id
            (COMMENT_MARKER +:+ nl +:+ text).
Proof.
  destruct text as [|x text]; [intros H; by apply elem_of_nil in H|].
  destruct (sync_comment_any (String x text) s ltac:(done))
    as [->|(c & _ & _ & ->)]; intros H;
    apply list_elem_of_singleton in H; eauto.
Qed.

Lemma sync_hyperlinks_adds_requested (links : list (string * string))
    (s : S) (q : request) :
  q ∈ mutations (exec h (sync_hyperlinks client id links) s).2 →
  ∃ link, link ∈ links ∧ q = add_hyperlink client id link.
Proof.
  pose proof (sync_hyperlinks_any links s) as H. cbv zeta in H.
  destruct (h (GetWorkItem client id) s).1 as [item|]; rewrite H;
    intros Hq; apply list_elem_of_fmap in Hq as (l & -> & Hq); [|eauto].
  apply list_elem_of_filter in Hq as [_ Hq]. eauto.
Qed.

(** X8. In every environment and whatever the reads are answered, a
    reconciler changes only what it was asked for: every creation of
    [sync_child_items] is the creation of a child of [id] for one of the
    requested titles; [sync_comment] only adds, or updates, a comment of
    [id] whose text is the marker, a newline and the requested text; and
    every update of [sync_hyperlinks] adds a hyperlink of the requested
    list to [id]. *)
Theorem reconcilers_change_only_what_is_requested
    (titles : list string) (text : string) (links : list (string * string))
    (s : S) (q : request) :
  (q ∈ mutations (exec h (sync_child_items client id titles) s).2 →
   ∃ title area_path iteration_path,
     title ∈ titles
     ∧ q = create_child client id area_path iteration_path title)
  ∧ (q ∈ mutations (exec h (sync_comment client id text) s).2 →
     q = AddComment client id (COMMENT_MARKER +:+ nl +:+ text)
     ∨ ∃ comment_id,
         q = UpdateComment client id comment_id
               (COMMENT_MARKER +:+ nl +:+ text))
  ∧ (q ∈ mutations (exec h (sync_hyperlinks client id links) s).2 →
     ∃ link, link ∈ links ∧ q = add_hyperlink client id link).
Proof.
  split_and!.
  - apply sync_child_items_creates_requested.
  - apply sync_comment_writes_requested.
  - apply sync_hyperlinks_adds_requested.
Qed.

(** X9. When the query for the existing children is answered with a
    status other than 200 and the parent is fetched, [sync_child_items]
    creates a child for every requested title, in order, existing or
    not: a failed query reads as no child at all. *)
Theorem sync_child_items_when_the_query_fails
    (titles : list string) (parent : work_item) (s s1 s2 : S)
    (status : Z) (relations : list wiql_row) :
  h (PostWiqlChildren client id) s = ((status, relations), s1) →
  status ≠ 200 →
  h (GetWorkItem client id) s1 = (Some parent, s2) →
  mutations (exec h (sync_child_items client id titles) s).2 =
    create_child client id
      (default EmptyString (wi_fields parent !! "System.AreaPath"))
      (default EmptyString (wi_fields parent !! "System.IterationPath"))
      <$> titles.
Proof.
  intros Hq Hstatus Hparent.
  assert (Hex : exec h (get_existing_child_titles client id) s
                = (Returned ∅, s1, [Ev (PostWiqlChildren client id)
                                      (status, relations)])).
  { unfold get_existing_child_titles. simpl. rewrite Hq. simpl.
    by rewrite decide_True. }
  destruct (sync_child_items_any h client id titles s)
    as (existing & Hex' & Hnil & Hsome).
  rewrite Hex in Hex', Hsome. cbn [fst snd] in *.
  inversion Hex'; subst existing.
  destruct titles as [|title titles]; [by rewrite (Hnil eq_refl)|].
  specialize (Hsome ltac:(done)). rewrite Hparent in Hsome. cbn [fst] in Hsome.
  rewrite Hsome. f_equal. apply filter_all, Forall_forall.
  intros t _ [x Hx]. by rewrite lookup_empty in Hx.
Qed.

(** X10. When the parent work item cannot be fetched,
    [sync_child_items] creates nothing, and the last thing it does is to
    print [Error: Could not fetch parent work item #<id>] on the standard
    error. *)
Theorem sync_child_items_without_the_parent
    (titles : list string) (s s2 : S) :
  titles ≠ [] →
  h (GetWorkItem client id)
    (exec h (get_existing_child_titles client id) s).1.2 = (None, s2) →
  let r := exec h (sync_child_items client id titles) s in
  mutations r.2 = []
  ∧ last (requests r.2)
    = Some (Stderr ("Error: Could not fetch parent work item #"
                      +:+ pretty id)).
Proof.
  intros Hne Hparent r.
  destruct (sync_child_items_any h client id titles s)
    as (existing & _ & _ & Hsome).
  specialize (Hsome Hne). by rewrite Hparent in Hsome.
Qed.

(** X11. When the work item cannot be fetched, [sync_hyperlinks] still
    sends the request that adds the hyperlink for every requested link,
    in order: a failed read gives the empty set of known URLs. *)
Theorem sync_hyperlinks_without_the_work_item
    (links : list (string * string)) (s s1 : S) :
  h (GetWorkItem client id) s = (None, s1) →
  mutations (exec h (sync_hyperlinks client id links) s).2
  = add_hyperlink client id <$> links.
Proof.
  intros Hitem. pose proof (sync_hyperlinks_any links s) as H.
  cbv zeta in H. by rewrite Hitem in H.
Qed.

(** X12. When every requested title is the title of an existing child,
    case-insensitively, [sync_child_items] creates nothing; and when the
    URL of every requested link is among the hyperlinks of the work item,
    [sync_hyperlinks] changes nothing. *)
Theorem nothing_to_do_when_all_is_there
    (children : list work_item) (parent item : work_item)
    (titles : list string) (links : list (string * string))
    (s s1 s2 s' s1' : S) :
  shows_children h client id children s s1 →
  h (GetWorkItem client id) s1 = (Some parent, s2) →
  h (GetWorkItem client id) s' = (Some item, s1') →
  Forall (has_child_titled children) titles →
  Forall (λ link, link.1 ∈ hyperlink_urls item) links →
  mutations (exec h (sync_child_items client id titles) s).2 = []
  ∧ mutations (exec h (sync_hyperlinks client id links) s').2 = [].
Proof.
  intros Hshow Hparent Hitem Htitles Hlinks. split.
  - destruct (sync_child_items_mutations h client id children parent titles
                s s1 s2 Hshow Hparent) as [_ ->].
    rewrite filter_none; [done|].
    eapply Forall_impl; [exact Htitles|]. tauto.
  - destruct (sync_hyperlinks_mutations h client id item links s' s1' Hitem)
      as [_ ->].
    rewrite filter_none; [done|].
    eapply Forall_impl; [exact Hlinks|]. tauto.
Qed.
End Reconcilers.

(** ** The phases of [main] *)

Section Phases.
Context {S : Type} (h : handler S).

(** The first block of [main] returns or exits with status 1 or 2. *)
Lemma get_pr_description_outcome (args : arguments) (s : S) :
  match (exec h (get_pr_description args) s).1.1 with
  | Returned _ => True
  | Exited c => c = 1 ∨ c = 2
  | Crashed _ => False
  end.
Proof.
  unfold get_pr_description, get_github_pr_description, eprint.
  destruct (truthy_int (arg_pr_number args)
            && negb (truthy_str (arg_repo args))); simpl.
  { destruct (h (Stderr _) s) as [[] s1]. simpl. by right. }
  destruct (truthy_str (arg_pr_description args)); [done|].
  destruct (truthy_str (arg_github_token args)); simpl.
  - destruct (h (GithubGetPull _ _ _) s) as [[status body] s1]. simpl.
    case_decide; simpl; [|done].
    destruct (h (Stderr _) s1) as [[] s2]. simpl. by left.
  - destruct (h (GetEnv _) s) as [token s0]. simpl.
    destruct (h (GithubGetPull _ _ _) s0) as [[status body] s1]. simpl.
    case_decide; simpl; [|done].
    destruct (h (Stderr _) s1) as [[] s2]. simpl. by left.
Qed.

(** A run of [main] either stops with status 1 or 2 before it asks
    anything of Azure DevOps, or gets to its last block with the card
    number that the parser found, which is not 0, in a description that
    is not empty. *)
Lemma main_with_phases (P : parser) (args : arguments) (s : S) :
  let r := exec h (main_with P args) s in
  (Forall (λ q, is_ado q = false) (requests r.2)
   ∧ (exit_code r.1.1 = 1 ∨ exit_code r.1.1 = 2))
  ∨ ∃ t0 s0 client card text,
      Forall (λ q, is_ado q = false) (requests t0)
      ∧ configures t0 client
      ∧ card ≠ 0 ∧ text ≠ EmptyString
      ∧ (exec h (get_pr_description args) s).1.1 = Returned (Some text)
      ∧ p_card P text = Value (Some card)
      ∧ r = (let '(o, s2, t2) :=
               exec h (sync_work_item client card text (p_tags P text)
                         (p_children P text) (p_comment P text)
                         (p_links P text)) s0 in
             (o, s2, t0 ++ t2)).
Proof.
  intros r. subst r. unfold main_with. rewrite exec_bind.
  pose proof (issues_only_exec h _ _ s (get_pr_description_kind args)) as Ht.
  pose proof (get_pr_description_outcome args s) as Ho.
  destruct (exec h (get_pr_description args) s) as [[[d|c|e] s1] t1];
    cbn [fst snd] in Ht, Ho; [|by left|done].
  assert (Hleft : ∀ t2 (Q : Prop),
    Forall (λ q, is_ado q = false) (requests t2) → Q →
    Forall (λ q, is_ado q = false) (requests (t1 ++ t2)) ∧ Q).
  { intros t2 Q H2 HQ. split; [|done].
    rewrite requests_app. by apply Forall_app. }
  destruct d as [[|c text]|]; [| |].
  1,3: left; simpl; destruct (h (Stderr _) s1) as [[] s2];
       apply Hleft; [by repeat constructor|by left].
  destruct (p_card P (String c text)) as [[card|]|exc] eqn:Hcard;
    simpl; [| |left; apply (Hleft []); [done|by left]].
  2: { left. destruct (h (Stderr _) s1) as [[] s2].
       destruct (h (Stderr _) s2) as [[] s3].
       apply Hleft; [by repeat constructor|by left]. }
  destruct card as [|card|card]; simpl.
  { left. destruct (h (Stderr _) s1) as [[] s2].
    destruct (h (Stderr _) s2) as [[] s3].
    apply Hleft; [by repeat constructor|by left]. }
  all: destruct (h ReadMetadata s1) as [[md|] s2]; simpl;
    [|left; destruct (h (Stderr _) s2) as [[] s3];
      apply Hleft; [by repeat constructor|by left]].
  all: destruct (organization md) as [[|o org]|] eqn:Horg; simpl;
    [left; destruct (h (Stderr _) s2) as [[] s3];
     apply Hleft; [by repeat constructor|by left]| |
     left; destruct (h (Stderr _) s2) as [[] s3];
     apply Hleft; [by repeat constructor|by left]].
  all: destruct (project md) as [[|p proj]|] eqn:Hproj; simpl;
    [left; destruct (h (Stderr _) s2) as [[] s3];
     apply Hleft; [by repeat constructor|by left]| |
     left; destruct (h (Stderr _) s2) as [[] s3];
     apply Hleft; [by repeat constructor|by left]].
  all: destruct (h (GetEnv _) s2) as [[[|x pat]|] s3]; simpl;
    [left; destruct (h (Stderr _) s3) as [[] s4];
     apply Hleft; [by repeat constructor|by left]| |
     left; destruct (h (Stderr _) s3) as [[] s4];
     apply Hleft; [by repeat constructor|by left]].
  all: right;
    exists (t1 ++ [Ev ReadMetadata (Some md);
                   Ev (GetEnv (default "ADO_PAT" (pat_env_var md)))
                      (Some (String x pat))]), s3,
           (Client (String o org) (String p proj) (String x pat));
    match type of Hcard with _ = Value (Some ?cd) => exists cd end;
    exists (String c text).
  all: split_and!; [|by exists md, t1|done|done|done|done|];
    [rewrite requests_app; apply Forall_app; split;
       [done|unfold requests; simpl; by repeat constructor]|].
  all: simpl;
    destruct (h (UpdateWorkItem _ _ _) s3) as [ok s4];
    destruct (exec h _ s4) as [[o' s5] t5];
    by rewrite <- app_assoc.
Qed.

(** X13. The exit status of a run of [main] is 0, 1 or 2; and when it is
    0, either the command line asked for the help, or the run sent the
    patch of the description and the tags and that patch was answered as
    done. *)
Theorem exit_status_of_main (P : parser) (cl : command_line) (s : S) :
  let r := exec h (main_from P cl) s in
  (exit_code r.1.1 = 0 ∨ exit_code r.1.1 = 1 ∨ exit_code r.1.1 = 2)
  ∧ (exit_code r.1.1 = 0 →
     cl = Help
     ∨ ∃ before after client card doc,
         r.2 = before ++ Ev (UpdateWorkItem client card doc) true :: after
         ∧ is_description_patch (UpdateWorkItem client card doc)).
Proof.
  intros r. destruct cl as [args| |message]; subst r; cbn [main_from].
  2: { split; [by left|]. intros _. by left. }
  2: { unfold eprint. simpl. destruct (h (Stderr message) s) as [[] s1].
       simpl. split; [by right; right|done]. }
  set (r := exec h (main_with P args) s).
  destruct (main_with_phases P args s)
    as [[Hno Hcode]|(t0 & s0 & client & card & text & Ht0 & _ & _ & _ & _ & _ & Hr)];
    fold r in Hno, Hcode || fold r in Hr.
  { split; [tauto|]. intros H. lia. }
  pose proof (sync_work_item_run h client card text (p_tags P text)
                (p_children P text) (p_comment P text) (p_links P text) s0)
    as Hsync.
  cbv zeta in Hsync.
  destruct (h (UpdateWorkItem client card
                 (description_patch_document text (p_tags P text))) s0)
    as [[|] s1]; cbn [fst snd] in Hsync; rewrite Hsync in Hr.
  - split; [left; by rewrite Hr|]. intros _. right.
    eexists t0, _, client, card, _. split; [by rewrite Hr|].
    apply description_patch_document_is.
  - split; [right; left; by rewrite Hr|]. by rewrite Hr.
Qed.

(** X14. Whatever a run of [main] asks of Azure DevOps begins with the
    patch of the description and the tags: the requests of a run are
    requests that are not for Azure DevOps, then either nothing more, or
    the patch of the description and then the rest. That patch goes to
    the card number that the parser found in a description that is not
    empty, a number that is not 0, with the client of the organization
    and the project of the metadata file and of the token of the
    environment variable that the file names ([ADO_PAT] by default),
    read just before, none of them empty. *)
Theorem description_patch_comes_first (P : parser) (args : arguments)
    (s : S) :
  let r := exec h (main_with P args) s in
  ∃ t0 rest,
    r.2 = t0 ++ rest
    ∧ Forall (λ q, is_ado q = false) (requests t0)
    ∧ (rest = []
       ∨ ∃ client card text (ok : bool) rest',
           rest = Ev (UpdateWorkItem client card
                        (description_patch_document text (p_tags P text)))
                     ok :: rest'
           ∧ configures t0 client
           ∧ p_card P text = Value (Some card)
           ∧ card ≠ 0 ∧ text ≠ EmptyString).
Proof.
  intros r.
  destruct (main_with_phases P args s)
    as [[Hno Hcode]|(t0 & s0 & client & card & text & Ht0 & Hcfg & Hc & Ht
                     & _ & Hp & Hr)];
    fold r in Hno, Hcode || fold r in Hr.
  { exists r.2, []. rewrite app_nil_r. split_and!; [done|done|by left]. }
  pose proof (sync_work_item_run h client card text (p_tags P text)
                (p_children P text) (p_comment P text) (p_links P text) s0)
    as Hsync.
  cbv zeta in Hsync.
  destruct (h (UpdateWorkItem client card
                 (description_patch_document text (p_tags P text))) s0)
    as [ok s1]; destruct ok; cbn [fst snd] in Hsync; rewrite Hsync in Hr;
    rewrite Hr; cbn [snd]; eexists t0, _; (split_and!; [done|done|]);
    right; by eexists client, card, text, _, _.
Qed.
(** X17. Every request of a run of [main] that changes something goes
    to the card number that [extract_ado_card_number] found in the
    description that [get_pr_description] returned, a number that is not
    0, and is one of: the patch of the description and the tags of that
    description; the creation of a child for a title of
    [extract_children]; the addition or the update of a comment whose
    text is the marker, a newline and the text of [extract_comment]; the
    addition of a hyperlink for a link of [extract_links]. *)
Theorem main_changes_only_what_the_description_asks
    (args : arguments) (s : S) (q : request) :
  q ∈ mutations (exec h (main args) s).2 →
  ∃ client card text,
    (exec h (get_pr_description args) s).1.1 = Returned (Some text)
    ∧ extract_ado_card_number text = Value (Some card) ∧ card ≠ 0
    ∧ (q = UpdateWorkItem client card
             (description_patch_document text (extract_tags text))
       ∨ (∃ title area_path iteration_path,
            title ∈ extract_children text
            ∧ q = create_child client card area_path iteration_path title)
       ∨ (∃ comment,
            extract_comment text = Some comment
            ∧ (q = AddComment client card
                     (COMMENT_MARKER +:+ nl +:+ comment)
               ∨ ∃ comment_id,
                   q = UpdateComment client card comment_id
                         (COMMENT_MARKER +:+ nl +:+ comment)))
       ∨ (∃ link, link ∈ extract_links text
                  ∧ q = add_hyperlink client card link)).
Proof.
  unfold main. intros Hq.
  destruct (main_with_phases directive_parser args s)
    as [[Hno _]|(t0 & s0 & client & card & text & Ht0 & _ & Hc & _ & Hd
                 & Hp & Hr)].
  { apply list_elem_of_filter in Hq as [Hm Hq].
    rewrite Forall_forall in Hno. specialize (Hno _ Hq).
    by destruct q. }
  exists client, card, text. split_and!; [done|done|done|].
  cbn [directive_parser p_tags p_children p_comment p_links] in Hr.
  pose proof (sync_work_item_run h client card text (extract_tags text)
                (extract_children text) (extract_comment text)
                (extract_links text) s0) as Hsync.
  cbv zeta in Hsync.
  rewrite Hr in Hq. clear Hr.
  destruct (h (UpdateWorkItem client card
                 (description_patch_document text (extract_tags text))) s0)
    as [[|] s1]; cbn [fst snd] in Hsync; rewrite Hsync in Hq;
    cbn [snd] in Hq; rewrite mutations_app in Hq;
    apply elem_of_app in Hq as [Hq|Hq].
  1,3: rewrite (mutations_no_ado _ Ht0) in Hq; by apply elem_of_nil in Hq.
  2: { rewrite mutations_cons in Hq. cbn [ev_req is_mutation] in Hq.
       apply list_elem_of_singleton in Hq. by left. }
  rewrite mutations_cons in Hq. cbn [ev_req is_mutation] in Hq.
  apply elem_of_cons in Hq as [->|Hq]; [by left|].
  rewrite !mutations_app in Hq.
  apply elem_of_app in Hq as [Hq|Hq]; [|apply elem_of_app in Hq as [Hq|Hq]].
  - right; left. by apply sync_child_items_creates_requested in Hq.
  - right; right; left.
    destruct (extract_comment text) as [[|x comment]|] eqn:Hcomment;
      cbn [default] in Hq; [by apply elem_of_nil in Hq| |
                            by apply elem_of_nil in Hq].
    exists (String x comment). split; [done|].
    by apply sync_comment_writes_requested in Hq.
  - right; right; right. by apply sync_hyperlinks_adds_requested in Hq.
Qed.
End Phases.

(** ** The description and the card number *)

(** X15. With arguments that pass the check of [--repo], a description
    given on the command line that is not empty is what
    [get_pr_description] returns, without any request. Otherwise the pull
    request of [--repo] and [--pr-number] is fetched from GitHub, with the
    token of the command line when there is one, and no look at the
    environment, or else with what the variable [GITHUB_TOKEN] holds,
    read first; a status 200 returns the body, any other status exits
    with status 1. *)
Theorem description_given_or_fetched {S : Type} (h : handler S)
    (args : arguments) (s : S) :
  truthy_int (arg_pr_number args) && negb (truthy_str (arg_repo args))
    = false →
  let r := exec h (get_pr_description args) s in
  (truthy_str (arg_pr_description args) = true →
   r = (Returned (arg_pr_description args), s, []))
  ∧ (truthy_str (arg_pr_description args) = false →
     ∃ github_token status body,
       Ev (GithubGetPull (arg_repo args) (arg_pr_number args) github_token)
          (status, body) ∈ r.2
       ∧ (truthy_str (arg_github_token args) = true →
          github_token = arg_github_token args
          ∧ GetEnv "GITHUB_TOKEN" ∉ requests r.2)
       ∧ (truthy_str (arg_github_token args) = false →
          head r.2 = Some (Ev (GetEnv "GITHUB_TOKEN") github_token))
       ∧ (status = 200 → r.1.1 = Returned body)
       ∧ (status ≠ 200 → r.1.1 = Exited 1)).
Proof.
  intros Hvalid r. subst r.
  unfold get_pr_description, get_github_pr_description, eprint.
  rewrite Hvalid. split; intros Hd; rewrite Hd; [done|].
  destruct (truthy_str (arg_github_token args)) eqn:Htok; simpl.
  - destruct (h (GithubGetPull _ _ _) s) as [[status body] s1] eqn:Hq.
    simpl. exists (arg_github_token args), status, body.
    case_decide; simpl.
    + destruct (h (Stderr _) s1) as [[] s2]. simpl.
      split_and!; [by left| |done|done|done].
      intros _. split; [done|]. unfold requests. simpl.
      intros H'. repeat (apply elem_of_cons in H' as [H'|H']; [done|]).
      by apply elem_of_nil in H'.
    + split_and!; [by left| |done|done|done].
      intros _. split; [done|]. unfold requests. simpl.
      intros H'. repeat (apply elem_of_cons in H' as [H'|H']; [done|]).
      by apply elem_of_nil in H'.
  - destruct (h (GetEnv _) s) as [token s0]. simpl.
    destruct (h (GithubGetPull _ _ _) s0) as [[status body] s1] eqn:Hq.
    simpl. exists token, status, body.
    case_decide; simpl.
    + destruct (h (Stderr _) s1) as [[] s2]. simpl.
      split_and!; [right; by left|done|done|done|done].
    + split_and!; [right; by left|done|done|done|done].
Qed.

(** X16. When the digits after [ADO Card:] are more than 4300 (the limit
    of [int] on the length of a decimal string), in a description of the
    shape of X5, [extract_ado_card_number] raises [ValueError]; and a run
    of [main] that gets this description stops with this exception, which
    nothing catches, right after it got the description, with no request
    more. *)
Theorem card_number_too_long_raises
    (before ado w1 card w2 w3 ds rest : string) :
  let text :=
    before +:+ ado +:+ w1 +:+ card +:+ w2 +:+ ":" +:+ w3 +:+ ds +:+ rest in
  Py.lower ado = "ado" → Py.lower card = "card" →
  every Py.isspace w1 = true → every Py.isspace w2 = true →
  every Py.isspace w3 = true →
  every Py.isdigit ds = true →
  (Py.int_max_str_digits < String.length ds)%nat →
  stops Py.isdigit rest = true →
  ¬ matches_within IGNORECASE card_pattern before
      (ado +:+ w1 +:+ card +:+ w2 +:+ ":" +:+ w3 +:+ ds +:+ rest) →
  extract_ado_card_number text = Raised "ValueError"
  ∧ ∀ (S : Type) (h : handler S) (args : arguments) (s s1 : S) t1,
      exec h (get_pr_description args) s = (Returned (Some text), s1, t1) →
      exec h (main args) s = (Crashed "ValueError", s1, t1).
Proof.
  intros text Hado Hcard H1 H2 H3 Hdig Hlen Hrest Hno.
  assert (Hds : ds ≠ EmptyString).
  { intros ->. simpl in Hlen. unfold Py.int_max_str_digits in Hlen. lia. }
  assert (Hraise : extract_ado_card_number text = Raised "ValueError").
  { subst text. unfold extract_ado_card_number.
    rewrite (search_skip _ _ _ _ Hno).
    rewrite (search_here _ _ _ _
               (match_at_card ado w1 card w2 w3 ds rest Hado Hcard H1 H2 H3
                  Hds Hdig Hrest)).
    unfold group, Py.int. cbn [group1 default]. unfold id.
    replace (String.length ds <=? Py.int_max_str_digits)%nat with false;
      [done|].
    symmetry. apply Nat.leb_gt. lia. }
  split; [done|].
  intros S h args s s1 t1 Hd. unfold main, main_with.
  rewrite exec_bind, Hd.
  destruct text as [|c text']; [by vm_compute in Hraise|].
  change (p_card directive_parser (String c text'))
    with (extract_ado_card_number (String c text')).
  rewrite Hraise. simpl. by rewrite app_nil_r.
Qed.

(** ** The further statements at concrete inputs *)

(** What [no_match_from] computes: no match starts inside [before]. *)
Lemma no_match_from_sound fl r before s :
  no_match_from fl r before s = true → ¬ matches_within fl r before s.
Proof.
  induction before as [|c before IH]; intros H (b1 & b2 & s1 & Hb & Hb2 & M).
  - destruct b1; [|done]. by change (EmptyString +:+ b2) with b2 in Hb.
  - cbn [no_match_from] in H.
    destruct (match_at fl r (String c before +:+ s)) eqn:E; [done|].
    destruct b1 as [|x b1].
    + change (EmptyString +:+ b2) with b2 in Hb. subst b2.
      destruct (m_complete _ _ _ _ M found None
                  (λ s1 g, Some (Found g s1))) as [f Hf]; [by eexists|].
      unfold match_at in E. congruence.
    + rewrite string_app_cons in Hb. inversion Hb; subst.
      apply (IH H). by exists b1, b2, s1.
Qed.

(** A search that finds nothing: the pattern matches nowhere. *)
Lemma not_occurs_of_search fl r text :
  search fl r text = None → ¬ occurs fl r text.
Proof.
  intros H Ho. apply search_complete in Ho as [f Hf]. congruence.
Qed.

(** The tag [urgent] of [ship_it]. *)
Lemma extract_tags_clean_witness :
  "urgent" ∈ extract_tags ship_it
  ∧ "urgent" ≠ EmptyString ∧ trimmed "urgent"
  ∧ Py.has_char "," "urgent" = false
  ∧ Py.has_char newline "urgent" = false.
Proof.
  assert (H : "urgent" ∈ extract_tags ship_it).
  { vm_compute. right. left. }
  split; [exact H|]. exact (extract_tags_clean ship_it "urgent" H).
Defined.

(** The title [update docs] of [ship_it]. *)
Lemma extract_children_clean_witness :
  "update docs" ∈ extract_children ship_it
  ∧ "update docs" ≠ EmptyString ∧ trimmed "update docs"
  ∧ Py.has_char newline "update docs" = false.
Proof.
  assert (H : "update docs" ∈ extract_children ship_it).
  { vm_compute. right. left. }
  split; [exact H|]. exact (extract_children_clean ship_it "update docs" H).
Defined.

(** The second link of [twice], with its name. *)
Lemma extract_links_clean_witness :
  ("https://x", "again") ∈ extract_links twice
  ∧ "https://x" ≠ EmptyString ∧ trimmed "https://x" ∧ trimmed "again"
  ∧ Py.has_char "|" "https://x" = false
  ∧ Py.has_char newline "https://x" = false
  ∧ Py.has_char newline "again" = false.
Proof.
  assert (H : ("https://x", "again") ∈ extract_links twice).
  { vm_compute. right. left. }
  split; [exact H|]. exact (extract_links_clean twice "https://x" "again" H).
Defined.

(** A description without any directive. *)
Lemma missing_directive_is_empty_witness :
  extract_tags "Fix the build" = []
  ∧ extract_children "Fix the build" = []
  ∧ extract_comment "Fix the build" = None
  ∧ extract_links "Fix the build" = [].
Proof.
  destruct (missing_directive_is_empty "Fix the build")
    as (H1 & H2 & H3 & H4).
  split_and!.
  - apply H1, not_occurs_of_search. by vm_compute.
  - apply H2, not_occurs_of_search. by vm_compute.
  - apply H3, not_occurs_of_search. by vm_compute.
  - apply H4, not_occurs_of_search. by vm_compute.
Defined.

(** A match that the matcher finds is a match of the pattern. *)
Lemma matches_of_match_at fl r s f :
  match_at fl r s = Some f → ∃ s1, matches fl r s s1.
Proof.
  unfold match_at. intros H. apply m_sound in H as (s1 & g1 & M & _).
  by exists s1.
Qed.

(** The card number of [ship_it], after two lines of text. *)
Lemma extract_ado_card_number_leftmost_witness :
  extract_ado_card_number ship_it = Value (Some 42) ∧ 0 ≤ 42.
Proof.
  exact (extract_ado_card_number_leftmost
           ("Ship it." +:+ nl +:+ nl) "ADO" " " "Card" "" " " "42"
           (nl +:+ "ADO Tags: bug, urgent" +:+ nl +:+ "ADO Children:" +:+ nl
              +:+ "- write tests" +:+ nl +:+ "- update docs" +:+ nl)
           eq_refl eq_refl eq_refl eq_refl eq_refl
           ltac:(done) eq_refl
           ltac:(apply Nat.leb_le; by vm_compute) eq_refl
           ltac:(apply no_match_from_sound; by vm_compute)).
Defined.

(** The tags of [ship_it], on the line after the card number. *)
Lemma extract_tags_of_line_witness :
  extract_tags ship_it = ["bug"; "urgent"].
Proof.
  exact (extract_tags_of_line
           ("Ship it." +:+ nl +:+ nl +:+ "ADO Card: 42" +:+ nl)
           "ADO" " " "Tags" "" " " "bug, urgent"
           (nl +:+ "ADO Children:" +:+ nl
              +:+ "- write tests" +:+ nl +:+ "- update docs" +:+ nl)
           eq_refl eq_refl eq_refl eq_refl eq_refl
           ltac:(done) eq_refl eq_refl eq_refl
           ltac:(apply no_match_from_sound; by vm_compute)).
Defined.

(** The comment of [with_comment] runs over two lines, up to the links. *)
Lemma extract_comment_until_end_witness :
  extract_comment with_comment
  = Some ("looks good," +:+ nl +:+ "ship it").
Proof.
  exact (extract_comment_until_end
           ("Fix the build." +:+ nl +:+ nl +:+ "ADO Card: 42" +:+ nl)
           "ADO" " " "Comment" "" " " "l"
           ("ooks good," +:+ nl +:+ "ship it")
           (nl +:+ "ADO Links:" +:+ nl +:+ "- https://x" +:+ nl)
           eq_refl eq_refl eq_refl eq_refl eq_refl eq_refl
           ltac:(apply no_match_from_sound; by vm_compute)
           ltac:(eapply matches_of_match_at; by vm_compute)
           ltac:(apply no_match_from_sound; by vm_compute)).
Defined.

(** Against the populated work item 42: the creation of [Write docs],
    the update of the comment 8 and the addition of [https://y]. *)
Lemma reconcilers_change_only_what_is_requested_witness :
  (∃ title area_path iteration_path,
     title ∈ ["Add tests"; "Write docs"]
     ∧ create_child client 42 "Web" "Sprint 1" "Write docs"
       = create_child client 42 area_path iteration_path title)
  ∧ (UpdateComment client 42 8 (COMMENT_MARKER +:+ nl +:+ "new")
     = AddComment client 42 (COMMENT_MARKER +:+ nl +:+ "new")
     ∨ ∃ comment_id,
         UpdateComment client 42 8 (COMMENT_MARKER +:+ nl +:+ "new")
         = UpdateComment client 42 comment_id
             (COMMENT_MARKER +:+ nl +:+ "new"))
  ∧ (∃ link, link ∈ [("https://x", "x"); ("https://y", "y")]
             ∧ add_hyperlink client 42 ("https://y", "y")
               = add_hyperlink client 42 link).
Proof.
  split_and!.
  - apply (proj1 (reconcilers_change_only_what_is_requested Remote.handle
                    client 42 ["Add tests"; "Write docs"] "" [] populated
                    (create_child client 42 "Web" "Sprint 1" "Write docs"))).
    vm_compute. left.
  - apply (proj1 (proj2 (reconcilers_change_only_what_is_requested
                           Remote.handle client 42 [] "new" [] populated
                           (UpdateComment client 42 8
                              (COMMENT_MARKER +:+ nl +:+ "new"))))).
    vm_compute. left.
  - apply (proj2 (proj2 (reconcilers_change_only_what_is_requested
                           Remote.handle client 42 [] ""
                           [("https://x", "x"); ("https://y", "y")] populated
                           (add_hyperlink client 42 ("https://y", "y"))))).
    vm_compute. left.
Defined.

(** With the query down, [Add tests] is created though the child
    [ADD TESTS] exists. *)
Lemma sync_child_items_when_the_query_fails_witness :
  mutations (exec wiql_down
               (sync_child_items client 42 ["Add tests"; "Write docs"])
               populated).2
  = [create_child client 42 "Web" "Sprint 1" "Add tests";
     create_child client 42 "Web" "Sprint 1" "Write docs"].
Proof.
  exact (sync_child_items_when_the_query_fails wiql_down client 42
           ["Add tests"; "Write docs"] card_42 populated populated populated
           500 [] eq_refl ltac:(done) ltac:(by vm_compute)).
Defined.

(** There is no work item 99. *)
Lemma sync_child_items_without_the_parent_witness :
  let r := exec Remote.handle (sync_child_items client 99 ["Add tests"])
             populated in
  mutations r.2 = []
  ∧ last (requests r.2)
    = Some (Stderr "Error: Could not fetch parent work item #99").
Proof.
  exact (sync_child_items_without_the_parent Remote.handle client 99
           ["Add tests"] populated populated ltac:(done)
           ltac:(by vm_compute)).
Defined.

(** There is no work item 99: the hyperlink is sent all the same. *)
Lemma sync_hyperlinks_without_the_work_item_witness :
  mutations (exec Remote.handle
               (sync_hyperlinks client 99 [("https://y", "y")]) populated).2
  = [add_hyperlink client 99 ("https://y", "y")].
Proof.
  exact (sync_hyperlinks_without_the_work_item Remote.handle client 99
           [("https://y", "y")] populated populated ltac:(by vm_compute)).
Defined.

(** The child [ADD TESTS] and the hyperlink [https://x] of the work item
    42 are there. *)
Lemma nothing_to_do_when_all_is_there_witness :
  mutations (exec Remote.handle (sync_child_items client 42 ["add tests"])
               populated).2 = []
  ∧ mutations (exec Remote.handle
                 (sync_hyperlinks client 42 [("https://x", "again")])
                 populated).2 = [].
Proof.
  apply (nothing_to_do_when_all_is_there Remote.handle client 42
           [child_43] card_42 card_42 ["add tests"] [("https://x", "again")]
           populated populated populated populated populated
           populated_shows_child_43).
  - by vm_compute.
  - by vm_compute.
  - apply List.Forall_cons; [|apply List.Forall_nil].
    exists child_43. split; [by left|by vm_compute].
  - apply List.Forall_cons; [|apply List.Forall_nil]. vm_compute. left.
Defined.

(** The run on [ship_it] against the empty work item 42 ends with
    status 0. *)
Lemma exit_status_of_main_witness :
  let cl := Parsed (direct ship_it) in
  let r := exec Remote.handle (main_from directive_parser cl) empty_card in
  exit_code r.1.1 = 0
  ∧ (cl = Help
     ∨ ∃ before after client card doc,
         r.2 = before ++ Ev (UpdateWorkItem client card doc) true :: after
         ∧ is_description_patch (UpdateWorkItem client card doc)).
Proof.
  intros cl r.
  assert (H : exit_code r.1.1 = 0) by (by vm_compute).
  split; [exact H|].
  exact (proj2 (exit_status_of_main Remote.handle directive_parser cl
                  empty_card) H).
Defined.

(** [--pr-number 7 --repo contoso/web] without a token: the variable is
    read, then the pull request is fetched. *)
Lemma description_given_or_fetched_witness :
  let r := exec Remote.handle (get_pr_description pull_7)
             (remote (200, Some "ADO Card: 42") [] []) in
  ∃ github_token status body,
    Ev (GithubGetPull (Some "contoso/web") (Some 7) github_token)
       (status, body) ∈ r.2
    ∧ (truthy_str None = true →
       github_token = None ∧ GetEnv "GITHUB_TOKEN" ∉ requests r.2)
    ∧ (truthy_str None = false →
       head r.2 = Some (Ev (GetEnv "GITHUB_TOKEN") github_token))
    ∧ (status = 200 → r.1.1 = Returned body)
    ∧ (status ≠ 200 → r.1.1 = Exited 1).
Proof.
  exact (proj2 (description_given_or_fetched Remote.handle pull_7
                  (remote (200, Some "ADO Card: 42") [] []) eq_refl)
           eq_refl).
Defined.

(** A card number of 4301 digits. *)
Lemma card_number_too_long_raises_witness :
  let text := "Fix: ADO Card: " +:+ ones 4301 in
  extract_ado_card_number text = Raised "ValueError"
  ∧ exec Remote.handle (main (direct text)) empty_card
    = (Crashed "ValueError", empty_card, []).
Proof.
  intros text.
  destruct (card_number_too_long_raises "Fix: " "ADO" " " "Card" "" " "
              (ones 4301) ""
              eq_refl eq_refl eq_refl eq_refl eq_refl
              ltac:(by vm_compute)
              ltac:(apply Nat.ltb_lt; by vm_compute) eq_refl
              ltac:(apply no_match_from_sound; by vm_compute))
    as [H1 H2].
  split; [exact H1|].
  exact (H2 Remote.state Remote.handle (direct text) empty_card empty_card
            [] ltac:(by vm_compute)).
Defined.

(** The creation of the child [write tests] in the run on [ship_it]. *)
Lemma main_changes_only_what_the_description_asks_witness :
  let q := create_child client 42 "" "" "write tests" in
  ∃ client card text,
    (exec Remote.handle (get_pr_description (direct ship_it))
       empty_card).1.1 = Returned (Some text)
    ∧ extract_ado_card_number text = Value (Some card) ∧ card ≠ 0
    ∧ (q = UpdateWorkItem client card
             (description_patch_document text (extract_tags text))
       ∨ (∃ title area_path iteration_path,
            title ∈ extract_children text
            ∧ q = create_child client card area_path iteration_path title)
       ∨ (∃ comment,
            extract_comment text = Some comment
            ∧ (q = AddComment client card
                     (COMMENT_MARKER +:+ nl +:+ comment)
               ∨ ∃ comment_id,
                   q = UpdateComment client card comment_id
                         (COMMENT_MARKER +:+ nl +:+ comment)))
       ∨ (∃ link, link ∈ extract_links text
                  ∧ q = add_hyperlink client card link)).
Proof.
  intros q.
  apply (main_changes_only_what_the_description_asks Remote.handle
           (direct ship_it) empty_card q).
  vm_compute. right. left.
Defined.
